(** * Luna chatbot: lead-capture state machine of js/spotlight.js

    A shallow embedding of class [LunaChatbot] (js/spotlight.js) and of the
    ECMAScript built-ins it calls, followed by the properties of the
    conversation flow, the retry pipeline, the local backup and the protocol
    generator. *)

From Stdlib Require Import String Ascii NArith.
From stdpp Require Import gmap list.

Local Open Scope N_scope.

(** ** ECMAScript strings

    A JavaScript string is a sequence of UTF-16 code units; [length],
    [trim], [includes], [split] and a regular expression without the [u]
    flag all work on code units. *)

Module JS.

Abbreviation jsstring := (list N).

(** *** String literals

    The source file is UTF-8; a literal is written here as the same bytes
    and decoded into the code units the JavaScript engine would hold. *)

Definition bytes (s : string) : list N :=
  map N_of_ascii (list_ascii_of_string s).

Fixpoint utf8_decode (bs : list N) : list N :=
  match bs with
  | [] => []
  | b0 :: t0 =>
    if b0 <? 0x80 then b0 :: utf8_decode t0
    else if b0 <? 0xE0 then
      match t0 with
      | b1 :: t1 => (b0 mod 0x20) * 0x40 + b1 mod 0x40 :: utf8_decode t1
      | _ => [0xFFFD]
      end
    else if b0 <? 0xF0 then
      match t0 with
      | b1 :: b2 :: t2 =>
        (b0 mod 0x10) * 0x1000 + (b1 mod 0x40) * 0x40 + b2 mod 0x40
          :: utf8_decode t2
      | _ => [0xFFFD]
      end
    else
      match t0 with
      | b1 :: b2 :: b3 :: t3 =>
        (b0 mod 0x08) * 0x40000 + (b1 mod 0x40) * 0x1000
          + (b2 mod 0x40) * 0x40 + b3 mod 0x40 :: utf8_decode t3
      | _ => [0xFFFD]
      end
  end.

Definition utf16_encode (cp : N) : jsstring :=
  if cp <? 0x10000 then [cp]
  else [0xD800 + (cp - 0x10000) / 0x400; 0xDC00 + (cp - 0x10000) mod 0x400].

Definition lit (s : string) : jsstring :=
  concat (map utf16_encode (utf8_decode (bytes s))).

(** The double quote, which a literal cannot hold. *)
Definition dq : jsstring := [0x22].

(** *** White space

    [WhiteSpace] and [LineTerminator] of ECMA-262: what [trim] strips and
    what [\s] matches. *)

Definition isWhiteSpace (c : N) : bool :=
  (0x09 <=? c) && (c <=? 0x0D) || (c =? 0x20) || (c =? 0xA0)
  || (c =? 0x1680) || (0x2000 <=? c) && (c <=? 0x200A)
  || (c =? 0x2028) || (c =? 0x2029) || (c =? 0x202F) || (c =? 0x205F)
  || (c =? 0x3000) || (c =? 0xFEFF).

Fixpoint trimStart (s : jsstring) : jsstring :=
  match s with
  | c :: s' => if isWhiteSpace c then trimStart s' else s
  | [] => []
  end.

Definition trimEnd (s : jsstring) : jsstring :=
  rev (trimStart (rev s)).

Definition trim (s : jsstring) : jsstring := trimEnd (trimStart s).

(** *** Searching and slicing *)

Fixpoint startsWith (s t : jsstring) {struct t} : bool :=
  match t, s with
  | [], _ => true
  | _ :: _, [] => false
  | d :: t', c :: s' => (c =? d) && startsWith s' t'
  end.

Fixpoint includes (s t : jsstring) : bool :=
  startsWith s t ||
  match s with
  | [] => false
  | _ :: s' => includes s' t
  end.

(** [s.split(sep)[0]] for a one-unit separator: the units before its first
    occurrence, the whole string when there is none. *)
Fixpoint split_head (sep : N) (s : jsstring) : jsstring :=
  match s with
  | [] => []
  | c :: s' => if c =? sep then [] else c :: split_head sep s'
  end.

(** [s.substring(i, j)] for [i <= j]. *)
Definition substring (i j : nat) (s : jsstring) : jsstring :=
  take (j - i) (drop i s).

(** *** Case conversion on Basic Latin and Latin-1

    The engine's [toLowerCase] and [toUpperCase] follow the Unicode case
    tables.  The chatbot below is parametric in them; these two functions
    cover the code units below U+0100 whose image stays below U+0100 (the
    upper-case forms of U+00DF, U+00B5 and U+00FF do not) and serve to run
    the model on concrete Portuguese text. *)

Definition latin1_lower (c : N) : N :=
  if (0x41 <=? c) && (c <=? 0x5A) then c + 0x20
  else if (0xC0 <=? c) && (c <=? 0xDE) && negb (c =? 0xD7) then c + 0x20
  else c.

Definition latin1_upper (c : N) : N :=
  if (0x61 <=? c) && (c <=? 0x7A) then c - 0x20
  else if (0xE0 <=? c) && (c <=? 0xFE) && negb (c =? 0xF7) then c - 0x20
  else c.

Definition latin1_toLowerCase (s : jsstring) : jsstring := map latin1_lower s.
Definition latin1_toUpperCase (s : jsstring) : jsstring := map latin1_upper s.

(** *** Number.prototype.toString(36) on a non-negative integer *)

Definition digit36 (d : N) : N :=
  if d <? 10 then 0x30 + d else 0x61 + (d - 10).

Fixpoint toString36_aux (fuel : nat) (n : N) (acc : jsstring) : jsstring :=
  match fuel with
  | O => acc
  | S fuel' =>
    let acc' := digit36 (n mod 36) :: acc in
    if n <? 36 then acc' else toString36_aux fuel' (n / 36) acc'
  end.

Definition toString36 (n : N) : jsstring :=
  toString36_aux (S (N.to_nat (N.log2 n))) n [].

(** *** encodeURIComponent

    [Encode] of ECMA-262 with the unreserved set of [encodeURIComponent]:
    letters, digits and [- _ . ! ~ * ' ( )] are kept, every other code
    point is written as the percent-escaped octets of its UTF-8 form.  An
    unpaired surrogate raises [URIError]: the result is [None]. *)

Definition isAlnum (c : N) : bool :=
  (0x41 <=? c) && (c <=? 0x5A) || (0x61 <=? c) && (c <=? 0x7A)
  || (0x30 <=? c) && (c <=? 0x39).

Definition uriUnreserved (c : N) : bool :=
  isAlnum c
  || (c =? 0x2D) || (c =? 0x5F) || (c =? 0x2E) || (c =? 0x21) || (c =? 0x7E)
  || (c =? 0x2A) || (c =? 0x27) || (c =? 0x28) || (c =? 0x29).

Definition isLeadSurrogate (c : N) : bool := (0xD800 <=? c) && (c <=? 0xDBFF).
Definition isTrailSurrogate (c : N) : bool := (0xDC00 <=? c) && (c <=? 0xDFFF).

Definition utf8_encode (cp : N) : list N :=
  if cp <? 0x80 then [cp]
  else if cp <? 0x800 then [0xC0 + cp / 0x40; 0x80 + cp mod 0x40]
  else if cp <? 0x10000 then
    [0xE0 + cp / 0x1000; 0x80 + (cp / 0x40) mod 0x40; 0x80 + cp mod 0x40]
  else
    [0xF0 + cp / 0x40000; 0x80 + (cp / 0x1000) mod 0x40;
     0x80 + (cp / 0x40) mod 0x40; 0x80 + cp mod 0x40].

Definition hexUpper (d : N) : N :=
  if d <? 10 then 0x30 + d else 0x41 + (d - 10).

Definition percentEscape (cp : N) : jsstring :=
  concat (map (fun o => [0x25; hexUpper (o / 16); hexUpper (o mod 16)])
              (utf8_encode cp)).

Fixpoint encodeURIComponent (s : jsstring) : option jsstring :=
  match s with
  | [] => Some []
  | c :: s' =>
    if uriUnreserved c then cons c <$> encodeURIComponent s'
    else if isLeadSurrogate c then
      match s' with
      | d :: s'' =>
        if isTrailSurrogate d then
          app (percentEscape (0x10000 + (c - 0xD800) * 0x400 + (d - 0xDC00)))
            <$> encodeURIComponent s''
        else None
      | [] => None
      end
    else if isTrailSurrogate c then None
    else app (percentEscape c) <$> encodeURIComponent s'
  end.

(** A string without unpaired surrogates. *)
Fixpoint isWellFormed (s : jsstring) : bool :=
  match s with
  | [] => true
  | c :: s' =>
    if isLeadSurrogate c then
      match s' with
      | d :: s'' => isTrailSurrogate d && isWellFormed s''
      | [] => false
      end
    else negb (isTrailSurrogate c) && isWellFormed s'
  end.

(** *** JSON.stringify on strings

    [QuoteJSONString]: short escapes for the seven characters of the
    table, a lower-case [\uXXXX] escape for the other control characters
    and for unpaired surrogates, everything else as it is. *)

Definition hexLower (d : N) : N :=
  if d <? 10 then 0x30 + d else 0x61 + (d - 10).

Definition unicodeEscape (c : N) : jsstring :=
  [0x5C; 0x75; hexLower (c / 0x1000); hexLower ((c / 0x100) mod 16);
   hexLower ((c / 0x10) mod 16); hexLower (c mod 16)].

Definition jsonEscapeUnit (c : N) : jsstring :=
  if c =? 0x08 then [0x5C; 0x62]
  else if c =? 0x09 then [0x5C; 0x74]
  else if c =? 0x0A then [0x5C; 0x6E]
  else if c =? 0x0C then [0x5C; 0x66]
  else if c =? 0x0D then [0x5C; 0x72]
  else if c =? 0x22 then [0x5C; 0x22]
  else if c =? 0x5C then [0x5C; 0x5C]
  else if c <? 0x20 then unicodeEscape c
  else [c].

Fixpoint jsonEscape (s : jsstring) : jsstring :=
  match s with
  | [] => []
  | c :: s' =>
    if isLeadSurrogate c then
      match s' with
      | d :: s'' =>
        if isTrailSurrogate d then c :: d :: jsonEscape s''
        else unicodeEscape c ++ jsonEscape s'
      | [] => unicodeEscape c
      end
    else if isTrailSurrogate c then unicodeEscape c ++ jsonEscape s'
    else jsonEscapeUnit c ++ jsonEscape s'
  end.

Definition quoteJSONString (s : jsstring) : jsstring :=
  dq ++ jsonEscape s ++ dq.

(** *** Regular expressions

    The fragment the chatbot uses: character classes, concatenation and
    [+], matched against the whole string (the pattern is anchored by [^]
    and [$] and has no flags, so [test] keeps no position between calls). *)

Inductive regex :=
| Never
| Empty
| Class (p : N -> bool)
| Seq (r1 r2 : regex)
| Alt (r1 r2 : regex)
| Star (r : regex).

Definition Plus (r : regex) : regex := Seq r (Star r).

(** What a pattern matches. *)
Inductive Matches : regex -> jsstring -> Prop :=
| MEmpty : Matches Empty []
| MClass p c : p c = true -> Matches (Class p) [c]
| MSeq r1 r2 s1 s2 : Matches r1 s1 -> Matches r2 s2 -> Matches (Seq r1 r2) (s1 ++ s2)
| MAltL r1 r2 s : Matches r1 s -> Matches (Alt r1 r2) s
| MAltR r1 r2 s : Matches r2 s -> Matches (Alt r1 r2) s
| MStarNil r : Matches (Star r) []
| MStarCons r s1 s2 : Matches r s1 -> Matches (Star r) s2 -> Matches (Star r) (s1 ++ s2).

(** The matcher: derivatives of the pattern by each code unit in turn. *)
Fixpoint nullable (r : regex) : bool :=
  match r with
  | Never => false
  | Empty => true
  | Class _ => false
  | Seq r1 r2 => nullable r1 && nullable r2
  | Alt r1 r2 => nullable r1 || nullable r2
  | Star _ => true
  end.

Definition seq_ (r1 r2 : regex) : regex :=
  match r1, r2 with
  | Never, _ => Never
  | _, Never => Never
  | Empty, _ => r2
  | _, _ => Seq r1 r2
  end.

Definition alt_ (r1 r2 : regex) : regex :=
  match r1, r2 with
  | Never, _ => r2
  | _, Never => r1
  | _, _ => Alt r1 r2
  end.

Fixpoint deriv (c : N) (r : regex) : regex :=
  match r with
  | Never => Never
  | Empty => Never
  | Class p => if p c then Empty else Never
  | Seq r1 r2 =>
    if nullable r1 then alt_ (seq_ (deriv c r1) r2) (deriv c r2)
    else seq_ (deriv c r1) r2
  | Alt r1 r2 => alt_ (deriv c r1) (deriv c r2)
  | Star r1 => seq_ (deriv c r1) (Star r1)
  end.

Fixpoint test (r : regex) (s : jsstring) : bool :=
  match s with
  | [] => nullable r
  | c :: s' => test (deriv c r) s'
  end.

End JS.

Import JS.

(** ** The page: chatbot instance, collaborators, effects *)

(** [this.flowState].  The constructor's comment lists the last state as
    MENSAGEM; the code uses ['DUVIDA']. *)
Inductive FlowState := IDLE | NAME | ROLE | EMAIL | DESAFIO | DUVIDA.

(** [this.leadData]: an object that starts as [{}] and receives its
    properties in this order; an absent property reads [undefined]. *)
Record LeadData := mkLead {
  nome : option jsstring;
  cargo : option jsstring;
  email : option jsstring;
  desafio : option jsstring;
  mensagem : option jsstring
}.

Definition emptyLead : LeadData := mkLead None None None None None.

Inductive Sender := User | Bot.

(** Children of the [chatMessages] element. *)
Inductive ChatNode :=
| Message (sender : Sender) (text : jsstring)
| TypingIndicator.

Record LunaChatbot := mkLuna {
  flowState : FlowState;
  leadData : LeadData;
  chatInput : jsstring;
  chatMessages : list ChatNode
}.

Inductive JSError :=
| Error (message : jsstring)
| TypeError
| URIError
| DOMException
| SendRejected
| SendThrew.

(** How one call of [window.sendContactEmail] ends: its promise is
    fulfilled, its promise is rejected, or the call itself throws. *)
Inductive SendOutcome := Fulfilled | Rejected | Threw.

#[global] Instance SendOutcome_eq_dec : EqDecision SendOutcome.
Proof. solve_decision. Defined.

(** The globals the chatbot reads.  They are fixed during a session; a
    collaborator that answers differently from call to call is a function
    of the number of calls made before:
    - [sendContactEmail]: absent, or how its [n]-th call ends;
    - [trackEvent]: whether [window.trackEvent] is defined (when it is, it
      is taken to return normally);
    - [randomUUID]: absent (no [crypto.randomUUID], as on a page not served
      over HTTPS), or the UUID handed out to the [n]-th token;
    - [Date_now], [toISOString]: [Date.now()] and
      [new Date().toISOString()] at the [n]-th reading of the clock;
    - [Math_random]: [Math.random().toString(36)] for the [n]-th token;
    - [setItem_ok]: whether the [n]-th [localStorage.setItem] returns, or
      throws (quota exceeded, storage disabled). *)
Record Window := mkWindow {
  sendContactEmail : option (nat -> SendOutcome);
  trackEvent : bool;
  randomUUID : option (nat -> jsstring);
  Date_now : nat -> N;
  Math_random : nat -> jsstring;
  toISOString : nat -> jsstring;
  setItem_ok : nat -> bool
}.

Inductive Tracked :=
| chatbot_initiated (timestamp : jsstring)
| lead_submitted (protocol : jsstring) (challenge : option jsstring).

Inductive ConsoleError :=
| AttemptFailed (attempt : nat) (error : JSError)
| FunctionNotFound
| ChatbotEmailError (error : JSError)
| SaveFailed (error : JSError).

(** What the chatbot has done to the outside, oldest first, and how many
    identifiers and clock readings it has drawn so far. *)
Record World := mkWorld {
  sent : list LeadData;
  timers : list N;
  tracked : list Tracked;
  console : list ConsoleError;
  localStorage : gmap jsstring jsstring;
  protocols : nat;
  clock : nat;
  writes : nat
}.

Record Page := mkPage { this : LunaChatbot; world : World }.

Definition set_flowState (v : FlowState) (b : LunaChatbot) : LunaChatbot :=
  mkLuna v (leadData b) (chatInput b) (chatMessages b).
Definition set_leadData (v : LeadData) (b : LunaChatbot) : LunaChatbot :=
  mkLuna (flowState b) v (chatInput b) (chatMessages b).
Definition set_chatInput (v : jsstring) (b : LunaChatbot) : LunaChatbot :=
  mkLuna (flowState b) (leadData b) v (chatMessages b).
Definition set_chatMessages (v : list ChatNode) (b : LunaChatbot) : LunaChatbot :=
  mkLuna (flowState b) (leadData b) (chatInput b) v.

Definition set_nome (v : jsstring) (d : LeadData) : LeadData :=
  mkLead (Some v) (cargo d) (email d) (desafio d) (mensagem d).
Definition set_cargo (v : jsstring) (d : LeadData) : LeadData :=
  mkLead (nome d) (Some v) (email d) (desafio d) (mensagem d).
Definition set_email (v : jsstring) (d : LeadData) : LeadData :=
  mkLead (nome d) (cargo d) (Some v) (desafio d) (mensagem d).
Definition set_desafio (v : jsstring) (d : LeadData) : LeadData :=
  mkLead (nome d) (cargo d) (email d) (Some v) (mensagem d).
Definition set_mensagem (v : jsstring) (d : LeadData) : LeadData :=
  mkLead (nome d) (cargo d) (email d) (desafio d) (Some v).

Definition log_sent (d : LeadData) (w : World) : World :=
  mkWorld (sent w ++ [d]) (timers w) (tracked w) (console w) (localStorage w)
          (protocols w) (clock w) (writes w).
Definition log_timer (ms : N) (w : World) : World :=
  mkWorld (sent w) (timers w ++ [ms]) (tracked w) (console w) (localStorage w)
          (protocols w) (clock w) (writes w).
Definition log_tracked (t : Tracked) (w : World) : World :=
  mkWorld (sent w) (timers w) (tracked w ++ [t]) (console w) (localStorage w)
          (protocols w) (clock w) (writes w).
Definition log_console (c : ConsoleError) (w : World) : World :=
  mkWorld (sent w) (timers w) (tracked w) (console w ++ [c]) (localStorage w)
          (protocols w) (clock w) (writes w).
Definition store (k v : jsstring) (w : World) : World :=
  mkWorld (sent w) (timers w) (tracked w) (console w) (<[k := v]> (localStorage w))
          (protocols w) (clock w) (writes w).
Definition tick_protocols (w : World) : World :=
  mkWorld (sent w) (timers w) (tracked w) (console w) (localStorage w)
          (S (protocols w)) (clock w) (writes w).
Definition tick_clock (w : World) : World :=
  mkWorld (sent w) (timers w) (tracked w) (console w) (localStorage w)
          (protocols w) (S (clock w)) (writes w).
Definition tick_writes (w : World) : World :=
  mkWorld (sent w) (timers w) (tracked w) (console w) (localStorage w)
          (protocols w) (clock w) (S (writes w)).

(** ** Computations

    A method runs on the page and completes normally with a value or
    abruptly with a thrown error (for an [async] method: its promise is
    fulfilled or rejected).  [OutOfFuel] is the model's own third outcome,
    for a loop cut short by its iteration budget. *)

Inductive Completion (A : Type) :=
| Normal (a : A)
| Throw (e : JSError)
| OutOfFuel.
Arguments Normal {A} a.
Arguments Throw {A} e.
Arguments OutOfFuel {A}.

Definition JS (A : Type) : Type := Page -> Completion A * Page.

#[global] Instance JS_ret : MRet JS := fun A a p => (Normal a, p).
#[global] Instance JS_bind : MBind JS := fun A B f m p =>
  match m p with
  | (Normal a, p') => f a p'
  | (Throw e, p') => (Throw e, p')
  | (OutOfFuel, p') => (OutOfFuel, p')
  end.
#[global] Instance JS_throw : MThrow JSError JS := fun A e p => (Throw e, p).

Definition outOfFuel {A} : JS A := fun p => (OutOfFuel, p).

(** [try { body } catch (error) { handler }]: what the body did to the page
    before it threw stays done. *)
Definition try_catch {A} (body : JS A) (handler : JSError -> JS A) : JS A :=
  fun p =>
    match body p with
    | (Throw e, p') => handler e p'
    | r => r
    end.

Definition getThis : JS LunaChatbot := fun p => (Normal (this p), p).
Definition getWorld : JS World := fun p => (Normal (world p), p).
Definition modifyThis (f : LunaChatbot -> LunaChatbot) : JS unit :=
  fun p => (Normal tt, mkPage (f (this p)) (world p)).
Definition modifyWorld (f : World -> World) : JS unit :=
  fun p => (Normal tt, mkPage (this p) (f (world p))).

Definition console_error (c : ConsoleError) : JS unit :=
  modifyWorld (log_console c).

(** [await new Promise(resolve => setTimeout(resolve, delay))]. *)
Definition sleep (ms : N) : JS unit := modifyWorld (log_timer ms).

(** ** Texts of the conversation *)

Definition greetingReply : jsstring :=
  lit "Olá! Sou a Luna. 🌙<br><br>
            Estou aqui para ajudar sua clínica a crescer.<br>
            Para falar com um especialista, digite <strong>"
  ++ dq
  ++ lit "Atendimento"
  ++ dq
  ++ lit "</strong> ou faça sua pergunta!".

Definition optInReply : jsstring :=
  lit "Entendi. Para que eu possa direcionar seu caso para o especialista correto, vamos fazer um breve cadastro?<br><br>
        Digite <strong>"
  ++ dq
  ++ lit "Sim"
  ++ dq
  ++ lit "</strong> para começar.".

Definition namePrompt : jsstring :=
  lit "Certo! Vamos lá. 🚀<br><br>
        Primeiro, qual é o seu <strong>Nome Completo</strong>?".

Definition rolePrompt (firstName : jsstring) : jsstring :=
  lit "Prazer, "
  ++ firstName
  ++ lit "! 👋<br><br>
                Qual é o seu <strong>Cargo</strong> na clínica? (Ex: Diretor, Gestor, Médico)".

Definition emailPrompt : jsstring :=
  lit "Perfeito. Agora, qual seu <strong>E-mail Corporativo</strong>?<br>
                <em>(Enviaremos o protocolo de atendimento para lá)</em>".

Definition challengePrompt : jsstring :=
  lit "Obrigada! 📧<br><br>
                Qual o <strong>Principal Desafio</strong> da clínica hoje?<br>
                (Ex: Faturamento, Custos, Tempo de Espera, Marketing)".

Definition messagePrompt : jsstring :=
  lit "Entendido. Para finalizar, qual sua <strong>Dúvida</strong> ou mensagem para o especialista?<br>
                (Se não tiver, digite <strong>"
  ++ dq
  ++ lit "Sem dúvida"
  ++ dq
  ++ lit "</strong>)".

Definition waTextSuccess (nome cargo desafio protocol : jsstring) : jsstring :=
  lit "Olá! Sou "
  ++ nome
  ++ lit " ("
  ++ cargo
  ++ lit ").
Meu desafio é: "
  ++ desafio
  ++ lit ".
Protocolo: "
  ++ protocol.

Definition waLinkOf (encoded : jsstring) : jsstring :=
  lit "https://wa.me/5511944223257?text="
  ++ encoded.

Definition successReply (protocol waLink : jsstring) : jsstring :=
  lit "✅ <strong>Recebido com Sucesso!</strong><br><br>
                    📧 Protocolo <strong>"
  ++ protocol
  ++ lit "</strong> enviado para seu e-mail.<br><br>
                    Para agilizar seu atendimento, clique abaixo e envie esses dados direto para nosso WhatsApp:<br><br>
                    👉 <a href="
  ++ dq
  ++ waLink
  ++ dq
  ++ lit " class="
  ++ dq
  ++ lit "chat-whatsapp-link w-full bg-green-500 hover:bg-green-600 text-white font-black py-3 rounded-xl shadow-lg shadow-green-500/30 transition-all flex items-center justify-center gap-2 mt-2 group"
  ++ dq
  ++ lit ">
                        <svg class="
  ++ dq
  ++ lit "w-5 h-5 group-hover:scale-110 transition-transform"
  ++ dq
  ++ lit " fill="
  ++ dq
  ++ lit "currentColor"
  ++ dq
  ++ lit " viewBox="
  ++ dq
  ++ lit "0 0 24 24"
  ++ dq
  ++ lit "><path d="
  ++ dq
  ++ lit "M17.472 14.382c-.297-.149-1.758-.867-2.03-.967-.273-.099-.471-.148-.67.15-.197.297-.767.966-.94 1.164-.173.199-.347.223-.644.075-.297-.15-1.255-.463-2.39-1.475-.883-.788-1.48-1.761-1.653-2.059-.173-.297-.018-.458.13-.606.134-.133.298-.347.446-.52.149-.174.198-.298.298-.497.099-.198.05-.371-.025-.52-.075-.149-.669-1.612-.916-2.207-.242-.579-.487-.5-.669-.51-.173-.008-.371-.01-.57-.01-.198 0-.52.074-.792.372-.272.297-1.04 1.016-1.04 2.479 0 1.462 1.065 2.875 1.213 3.074.149.198 2.096 3.2 5.077 4.487.709.306 1.262.489 1.694.625.712.227 1.36.195 1.871.118.571-.085 1.758-.719 2.006-1.413.248-.694.248-1.289.173-1.413-.074-.124-.272-.198-.57-.347m-5.421 7.403h-.004a9.87 9.87 0 01-5.031-1.378l-.361-.214-3.741.982.998-3.648-.235-.374a9.86 9.86 0 01-1.51-5.26c.001-5.45 4.436-9.884 9.888-9.884 2.64 0 5.122 1.03 6.988 2.898a9.825 9.825 0 012.893 6.994c-.003 5.45-4.437 9.884-9.885 9.884m8.413-18.297A11.815 11.815 0 0012.05 0C5.495 0 .16 5.335.157 11.892c0 2.096.547 4.142 1.588 5.945L.057 24l6.305-1.654a11.882 11.882 0 005.683 1.448h.005c6.554 0 11.89-5.335 11.893-11.893a11.821 11.821 0 00-3.48-8.413z"
  ++ dq
  ++ lit "/></svg>
                        Enviar via WhatsApp
                    </a>".

Definition waTextFallback (nome cargo desafio protocol : jsstring) : jsstring :=
  lit "Olá! Sou "
  ++ nome
  ++ lit " ("
  ++ cargo
  ++ lit ").
Meu desafio é: "
  ++ desafio
  ++ lit ".
Protocolo: "
  ++ protocol
  ++ lit "

(Enviado via WhatsApp pois o formulário apresentou erro)".

Definition fallbackReply (waLink : jsstring) : jsstring :=
  lit "⚠️ <strong>Ops! Erro ao enviar e-mail.</strong><br><br>
                    Mas não se preocupe! Seus dados foram salvos localmente.<br><br>
                    Por favor, <strong>clique no botão abaixo</strong> para enviar seus dados via WhatsApp:<br><br>
                    👉 <a href="
  ++ dq
  ++ waLink
  ++ dq
  ++ lit " class="
  ++ dq
  ++ lit "chat-whatsapp-link w-full bg-green-500 hover:bg-green-600 text-white font-black py-3 rounded-xl shadow-lg shadow-green-500/30 transition-all flex items-center justify-center gap-2 mt-2 group"
  ++ dq
  ++ lit ">
                        <svg class="
  ++ dq
  ++ lit "w-5 h-5 group-hover:scale-110 transition-transform"
  ++ dq
  ++ lit " fill="
  ++ dq
  ++ lit "currentColor"
  ++ dq
  ++ lit " viewBox="
  ++ dq
  ++ lit "0 0 24 24"
  ++ dq
  ++ lit "><path d="
  ++ dq
  ++ lit "M17.472 14.382c-.297-.149-1.758-.867-2.03-.967-.273-.099-.471-.148-.67.15-.197.297-.767.966-.94 1.164-.173.199-.347.223-.644.075-.297-.15-1.255-.463-2.39-1.475-.883-.788-1.48-1.761-1.653-2.059-.173-.297-.018-.458.13-.606.134-.133.298-.347.446-.52.149-.174.198-.298.298-.497.099-.198.05-.371-.025-.52-.075-.149-.669-1.612-.916-2.207-.242-.579-.487-.5-.669-.51-.173-.008-.371-.01-.57-.01-.198 0-.52.074-.792.372-.272.297-1.04 1.016-1.04 2.479 0 1.462 1.065 2.875 1.213 3.074.149.198 2.096 3.2 5.077 4.487.709.306 1.262.489 1.694.625.712.227 1.36.195 1.871.118.571-.085 1.758-.719 2.006-1.413.248-.694.248-1.289.173-1.413-.074-.124-.272-.198-.57-.347m-5.421 7.403h-.004a9.87 9.87 0 01-5.031-1.378l-.361-.214-3.741.982.998-3.648-.235-.374a9.86 9.86 0 01-1.51-5.26c.001-5.45 4.436-9.884 9.888-9.884 2.64 0 5.122 1.03 6.988 2.898a9.825 9.825 0 012.893 6.994c-.003 5.45-4.437 9.884-9.885 9.884m8.413-18.297A11.815 11.815 0 0012.05 0C5.495 0 .16 5.335.157 11.892c0 2.096.547 4.142 1.588 5.945L.057 24l6.305-1.654a11.882 11.882 0 005.683 1.448h.005c6.554 0 11.89-5.335 11.893-11.893a11.821 11.821 0 00-3.48-8.413z"
  ++ dq
  ++ lit "/></svg>
                        Enviar via WhatsApp (URGENTE)
                    </a>".

Definition invalidNameReply : jsstring :=
  lit "Por favor, digite um nome válido.".

Definition invalidEmailReply : jsstring :=
  lit "Hmm, esse e-mail parece inválido. Tente novamente, por favor!".

Definition restartReply : jsstring :=
  lit "Algo deu errado. Vamos começar de novo? Digite 'Olá'.".

(** A template literal prints an absent property as [undefined]. *)
Definition interp (v : option jsstring) : jsstring :=
  default (lit "undefined") v.

(** ** JSON.stringify of the backup object

    [{ data: this.leadData, timestamp: ... }]: members in insertion order,
    absent properties left out, no white space. *)

Definition jsonMember (k : jsstring) (v : option jsstring) : list jsstring :=
  match v with
  | Some s => [quoteJSONString k ++ lit ":" ++ quoteJSONString s]
  | None => []
  end.

Fixpoint joinComma (l : list jsstring) : jsstring :=
  match l with
  | [] => []
  | [x] => x
  | x :: l' => x ++ lit "," ++ joinComma l'
  end.

Definition stringifyLead (d : LeadData) : jsstring :=
  lit "{"
  ++ joinComma (jsonMember (lit "nome") (nome d)
                ++ jsonMember (lit "cargo") (cargo d)
                ++ jsonMember (lit "email") (email d)
                ++ jsonMember (lit "desafio") (desafio d)
                ++ jsonMember (lit "mensagem") (mensagem d))
  ++ lit "}".

Definition stringifyBackup (d : LeadData) (timestamp : jsstring) : jsstring :=
  lit "{" ++ quoteJSONString (lit "data") ++ lit ":" ++ stringifyLead d
  ++ lit "," ++ quoteJSONString (lit "timestamp") ++ lit ":"
  ++ quoteJSONString timestamp ++ lit "}".

(** ** class LunaChatbot *)

(** [/^[^\s@]+@[^\s@]+\.[^\s@]+$/] *)
Definition notSpaceAt (c : N) : bool := negb (isWhiteSpace c || (c =? 0x40)).

Definition emailRegex : regex :=
  Seq (Plus (Class notSpaceAt))
    (Seq (Class (N.eqb 0x40))
      (Seq (Plus (Class notSpaceAt))
        (Seq (Class (N.eqb 0x2E))
          (Plus (Class notSpaceAt))))).

Definition triggers : list jsstring :=
  map lit [ "dúvida"; "duvida"; "ajuda"; "suporte"; "erro"; "problema";
            "fechar"; "contratar"; "comprar"; "preço"; "preco";
            "valor"; "orçamento"; "orcamento"; "whatsapp"; "zap"; "quero" ]%string.

Definition backupKey : jsstring := lit "glx_lead_backup".

(** What a loop body tells its loop: leave the function with a value, or
    go on with the next iteration. *)
Inductive LoopStep := Return (b : bool) | Continue.

Module Luna.
Section Methods.

(** The engine's case conversions and the page's globals. *)
Variable toLowerCase toUpperCase : jsstring -> jsstring.
Variable window : Window.

Definition new_Date_toISOString : JS jsstring :=
  w ← getWorld;
  modifyWorld tick_clock;;
  mret (toISOString window (clock w)).

Definition Date_now_read : JS N :=
  w ← getWorld;
  modifyWorld tick_clock;;
  mret (Date_now window (clock w)).

Definition window_trackEvent (t : Tracked) : JS unit :=
  modifyWorld (log_tracked t).

(** [await window.sendContactEmail(data)] *)
Definition await_sendContactEmail (data : LeadData) : JS unit :=
  match sendContactEmail window with
  | None => mthrow TypeError
  | Some send =>
    w ← getWorld;
    modifyWorld (log_sent data);;
    match send (length (sent w)) with
    | Fulfilled => mret tt
    | Rejected => mthrow SendRejected
    | Threw => mthrow SendThrew
    end
  end.

Definition localStorage_setItem (k v : jsstring) : JS unit :=
  w ← getWorld;
  modifyWorld tick_writes;;
  if setItem_ok window (writes w) then modifyWorld (store k v)
  else mthrow DOMException.

Definition encodeURIComponent_ (s : jsstring) : JS jsstring :=
  match encodeURIComponent s with
  | Some r => mret r
  | None => mthrow URIError
  end.

(** *** addMessage, showTyping, hideTyping *)

Definition addMessage (text : jsstring) (sender : Sender) : JS unit :=
  modifyThis (fun b => set_chatMessages (chatMessages b ++ [Message sender text]) b).

Definition showTyping : JS unit :=
  modifyThis (fun b => set_chatMessages (chatMessages b ++ [TypingIndicator]) b).

Fixpoint removeTyping (l : list ChatNode) : list ChatNode :=
  match l with
  | [] => []
  | TypingIndicator :: l' => l'
  | n :: l' => n :: removeTyping l'
  end.

Definition hideTyping : JS unit :=
  modifyThis (fun b => set_chatMessages (removeTyping (chatMessages b)) b).

(** *** generateSecureProtocol *)

Definition generateSecureProtocol : JS jsstring :=
  w ← getWorld;
  modifyWorld tick_protocols;;
  match randomUUID window with
  | Some crypto_randomUUID =>
    let uuid := crypto_randomUUID (protocols w) in
    let shortId := toUpperCase (split_head 0x2D uuid) in
    mret (lit "GLX-" ++ shortId)
  | None =>
    now ← Date_now_read;
    let timestamp := toUpperCase (toString36 now) in
    let random := toUpperCase (substring 2 6 (Math_random window (protocols w))) in
    mret (lit "GLX-" ++ timestamp ++ lit "-" ++ random)
  end.

(** *** sendEmailWithRetry

    [for (let attempt = 1; attempt <= maxRetries; attempt++)]: the loop
    runs at most [maxRetries] times, which is the budget it is given. *)

Fixpoint retryLoop (fuel : nat) (data : LeadData) (maxRetries attempt : nat)
  : JS bool :=
  if (attempt <=? maxRetries)%nat then
    match fuel with
    | O => outOfFuel
    | S fuel' =>
      step ← try_catch
        (await_sendContactEmail data;;
         mret (Return true))
        (fun error =>
           console_error (AttemptFailed attempt error);;
           if (attempt <? maxRetries)%nat then
             let delay := 2 ^ N.of_nat (attempt - 1) * 1000 in
             sleep delay;;
             mret Continue
           else
             mret (Return false));
      match step with
      | Return b => mret b
      | Continue => retryLoop fuel' data maxRetries (S attempt)
      end
    end
  else mret false.

(** [maxRetries = 3] when the argument is left out. *)
Definition sendEmailWithRetry (data : LeadData) (maxRetries : option nat)
  : JS bool :=
  let maxRetries := default 3%nat maxRetries in
  retryLoop maxRetries data maxRetries 1.

(** *** saveToLocalStorage *)

Definition saveToLocalStorage : JS unit :=
  try_catch
    (b ← getThis;
     timestamp ← new_Date_toISOString;
     let backup := stringifyBackup (leadData b) timestamp in
     localStorage_setItem backupKey backup)
    (fun e => console_error (SaveFailed e)).

(** *** startLeadFlow, checkIntents *)

Definition startLeadFlow : JS jsstring :=
  modifyThis (set_flowState NAME);;
  modifyThis (set_leadData emptyLead);;
  (if trackEvent window then
     timestamp ← new_Date_toISOString;
     window_trackEvent (chatbot_initiated timestamp)
   else mret tt);;
  mret namePrompt.

Definition checkIntents (message : jsstring) : JS jsstring :=
  let msg := toLowerCase message in
  if existsb (fun t => includes msg t) triggers then startLeadFlow
  else if includes msg (lit "olá") || includes msg (lit "oi")
          || includes msg (lit "bom")
  then mret greetingReply
  else mret optInReply.

(** *** handleFlow *)

Definition handleFlow (input : jsstring) : JS jsstring :=
  let cleanInput := trim input in
  b ← getThis;
  match flowState b with
  | NAME =>
    if (length cleanInput <? 3)%nat then mret invalidNameReply
    else
      modifyThis (fun b => set_leadData (set_nome cleanInput (leadData b)) b);;
      modifyThis (set_flowState ROLE);;
      mret (rolePrompt (split_head 0x20 cleanInput))
  | ROLE =>
    modifyThis (fun b => set_leadData (set_cargo cleanInput (leadData b)) b);;
    modifyThis (set_flowState EMAIL);;
    mret emailPrompt
  | EMAIL =>
    if negb (test emailRegex cleanInput) then mret invalidEmailReply
    else
      modifyThis (fun b => set_leadData (set_email cleanInput (leadData b)) b);;
      modifyThis (set_flowState DESAFIO);;
      mret challengePrompt
  | DESAFIO =>
    modifyThis (fun b => set_leadData (set_desafio cleanInput (leadData b)) b);;
    modifyThis (set_flowState DUVIDA);;
    mret messagePrompt
  | DUVIDA =>
    modifyThis (fun b => set_leadData (set_mensagem cleanInput (leadData b)) b);;
    try_catch
      (protocol ← generateSecureProtocol;
       match sendContactEmail window with
       | Some _ =>
         b ← getThis;
         success ← sendEmailWithRetry (leadData b) (Some 3%nat);
         if negb success then
           mthrow (Error (lit "EmailJS failed after retries"))
         else mret tt
       | None =>
         console_error FunctionNotFound;;
         mthrow (Error (lit "Configuration Error"))
       end;;
       modifyThis (set_flowState IDLE);;
       (if trackEvent window then
          b ← getThis;
          window_trackEvent (lead_submitted protocol (desafio (leadData b)))
        else mret tt);;
       b ← getThis;
       let d := leadData b in
       let waText :=
         waTextSuccess (interp (nome d)) (interp (cargo d))
                       (interp (desafio d)) protocol in
       encoded ← encodeURIComponent_ waText;
       let waLink := waLinkOf encoded in
       mret (successReply protocol waLink))
      (fun error =>
         console_error (ChatbotEmailError error);;
         saveToLocalStorage;;
         protocol ← generateSecureProtocol;
         b ← getThis;
         let d := leadData b in
         let waText :=
           waTextFallback (interp (nome d)) (interp (cargo d))
                          (interp (desafio d)) protocol in
         encoded ← encodeURIComponent_ waText;
         let waLink := waLinkOf encoded in
         mret (fallbackReply waLink))
  | IDLE =>
    modifyThis (set_flowState IDLE);;
    mret restartReply
  end.

(** *** sendMessage

    The body of the [setTimeout] callback runs one second after the
    submission; no other input is taken in between. *)

Definition isIDLE (s : FlowState) : bool :=
  match s with IDLE => true | _ => false end.

Definition respond (message : jsstring) : JS unit :=
  hideTyping;;
  b ← getThis;
  response ← (if negb (isIDLE (flowState b)) then handleFlow message
              else checkIntents message);
  addMessage response Bot.

Definition sendMessage : JS unit :=
  b ← getThis;
  let message := trim (chatInput b) in
  match message with
  | [] => mret tt
  | _ =>
    addMessage message User;;
    modifyThis (set_chatInput []);;
    showTyping;;
    modifyWorld (log_timer 1000);;
    respond message
  end.

End Methods.
End Luna.


(** ** js/email-config.js: sendContactEmail *)

Module EmailConfig.

Record Config := mkConfig {
  PUBLIC_KEY : jsstring;
  SERVICE_ID : jsstring;
  TEMPLATE_ID : jsstring;
  TO_EMAIL : jsstring
}.

Definition EMAILJS_CONFIG : Config :=
  mkConfig (lit "kmX7xEdJ5TF8pKbwi") (lit "service_y8pgvhf")
           (lit "template_y3g4zb1")
           (lit "contato@glxpartners.com, matheus.rob.oliveira@gmail.com").

Record TemplateParams := mkParams {
  p_nome : option jsstring;
  p_cargo : option jsstring;
  p_email : option jsstring;
  p_desafio : option jsstring;
  p_mensagem : jsstring;
  to_email : jsstring
}.

(** [v || d] on a string property: an absent property and the empty
    string are falsy. *)
Definition orElse (v : option jsstring) (d : jsstring) : jsstring :=
  match v with
  | Some (c :: s) => c :: s
  | _ => d
  end.

Definition errorMsg : jsstring :=
  lit "⚠️ Configuração do EmailJS pendente! Substitua os placeholders em js/email-config.js pelas suas chaves reais.".

Inductive Effect :=
| console_error (msg : jsstring)
| emailjs_send (service template : jsstring) (params : TemplateParams).

(** The SDK: absent when its script did not load, else how [emailjs.send]
    ends on a request. *)
Definition SDK : Type :=
  option (jsstring → jsstring → TemplateParams → SendOutcome).

Definition eqb (s t : jsstring) : bool := bool_decide (s = t).

(** How the call ends, and what it did. *)
Definition sendContactEmail (cfg : Config) (emailjs : SDK) (formData : LeadData)
  : SendOutcome * list Effect :=
  if eqb (PUBLIC_KEY cfg) (lit "YOUR_PUBLIC_KEY")
     || eqb (SERVICE_ID cfg) (lit "YOUR_SERVICE_ID")
     || eqb (TEMPLATE_ID cfg) (lit "YOUR_TEMPLATE_ID")
  then (Rejected, [console_error errorMsg])
  else
    let templateParams :=
      mkParams (nome formData) (cargo formData) (email formData)
               (desafio formData)
               (orElse (mensagem formData) (lit "Não informada"))
               (TO_EMAIL cfg) in
    match emailjs with
    | None => (Threw, [])
    | Some send =>
      (send (SERVICE_ID cfg) (TEMPLATE_ID cfg) templateParams,
       [emailjs_send (SERVICE_ID cfg) (TEMPLATE_ID cfg) templateParams])
    end.

End EmailConfig.

(** ** class TextType: the typing animation *)

Module TextType.

Record State := mkState {
  texts : list jsstring;
  typingSpeed : N;
  deletingSpeed : N;
  pauseDuration : N;
  loop : bool;
  currentTextIndex : nat;
  currentCharIndex : Z;
  isDeleting : bool;
  textSpan : jsstring
}.

(** How a call of [type] ends: with the next call scheduled after a delay,
    without one, or with the TypeError of [undefined.substring]. *)
Inductive Tick :=
| Scheduled (delay : N)
| Stopped
| TypeErrorThrown.

(** [options.text]: an array, a string, or absent. *)
Inductive TextOption :=
| TextArray (l : list jsstring)
| TextString (s : jsstring)
| TextAbsent.

(** [n || d] on a number: an absent option and 0 are falsy. *)
Definition orNumber (n : option N) (d : N) : N :=
  match n with
  | Some 0%N | None => d
  | Some v => v
  end.

(** The fields the constructor sets before the first call of [type]. *)
Definition create (text : TextOption) (typing deleting pause : option N)
    (loopOption : option bool) : State :=
  mkState
    (match text with
     | TextArray l => l
     | TextString (c :: s) => [c :: s]
     | _ => [[]]
     end)
    (orNumber typing 75) (orNumber deleting 50) (orNumber pause 1500)
    (match loopOption with Some false => false | _ => true end)
    0 0 false [].

(** [s.substring(0, n)]: a negative [n] counts as 0, one beyond the end
    as the length. *)
Definition substring0 (s : jsstring) (n : Z) : jsstring := take (Z.to_nat n) s.

Definition type (st : State) : State * Tick :=
  let c := (if isDeleting st then currentCharIndex st - 1
            else currentCharIndex st + 1)%Z in
  match texts st !! currentTextIndex st with
  | None =>
    (mkState (texts st) (typingSpeed st) (deletingSpeed st) (pauseDuration st)
             (loop st) (currentTextIndex st) c (isDeleting st) (textSpan st),
     TypeErrorThrown)
  | Some currentText =>
    let shown := substring0 currentText c in
    let delay := if isDeleting st then deletingSpeed st else typingSpeed st in
    if negb (isDeleting st) && (c =? Z.of_nat (length currentText))%Z then
      (mkState (texts st) (typingSpeed st) (deletingSpeed st) (pauseDuration st)
               (loop st) (currentTextIndex st) c true shown,
       Scheduled (pauseDuration st))
    else if isDeleting st && (c =? 0)%Z then
      let i := ((currentTextIndex st + 1) mod length (texts st))%nat in
      if negb (loop st) && (i =? 0)%nat then
        let last := (length (texts st) - 1)%nat in
        (mkState (texts st) (typingSpeed st) (deletingSpeed st) (pauseDuration st)
                 (loop st) last c false (default [] (texts st !! last)),
         Stopped)
      else
        (mkState (texts st) (typingSpeed st) (deletingSpeed st) (pauseDuration st)
                 (loop st) i c false shown,
         Scheduled 500)
    else
      (mkState (texts st) (typingSpeed st) (deletingSpeed st) (pauseDuration st)
               (loop st) (currentTextIndex st) c (isDeleting st) shown,
       Scheduled delay)
  end.

(** The chain of timers: up to [n] calls of [type], each made when the one
    before has scheduled it; the ticks are listed oldest first. *)
Fixpoint play (n : nat) (st : State) : State * list Tick :=
  match n with
  | O => (st, [])
  | S n' =>
    match type st with
    | (st', Scheduled d) =>
      let (st'', ticks) := play n' st' in (st'', Scheduled d :: ticks)
    | (st', tick) => (st', [tick])
    end
  end.

(** Ready for the next call: the current text exists, no text is empty,
    and the character index leaves room to type, or to delete. *)
Definition ready (st : State) : Prop :=
  Forall (λ t, t ≠ []) (texts st)
  ∧ ∃ t, texts st !! currentTextIndex st = Some t
         ∧ if isDeleting st
           then (0 < currentCharIndex st ≤ Z.of_nat (length t))%Z
           else (0 ≤ currentCharIndex st < Z.of_nat (length t))%Z.

End TextType.

(** ** class SpotlightManager: cards and their listeners *)

Module Spotlight.

(** What the manager does to a card element: the overlays among its
    children and the number of times the three mouse listeners were
    attached. *)
Record Card := mkCard { overlays : nat; listeners : nat }.

(** [this.cards] and the card elements of the document, by identity. *)
Record Manager := mkManager {
  cards : gset nat;
  document : gmap nat Card
}.

Definition setupCard (card : nat) (doc : gmap nat Card) : gmap nat Card :=
  match doc !! card with
  | Some el =>
    let n := match overlays el with O => 1%nat | n => n end in
    <[card := mkCard n (S (listeners el))]> doc
  | None => doc
  end.

(** [found.forEach(card => ...)] over the result of the query. *)
Definition refresh (found : list nat) (m : Manager) : Manager :=
  foldl (λ m card,
           if decide (card ∈ cards m) then m
           else mkManager ({[card]} ∪ cards m) (setupCard card (document m)))
        m found.

(** The elements [querySelectorAll('.spotlight-card')] finds: here, every
    card of the document. *)
Definition query (m : Manager) : list nat := elements (dom (document m)).

End Spotlight.

(** ** Vocabulary of the statements *)

Definition sumN (l : list N) : N := foldr N.add 0 l.

(** The delay the retry loop asks for after failed attempt [i], in ms. *)
Definition backoff (i : nat) : N := 2 ^ N.of_nat (i - 1) * 1000.

(** [w'] is [w] after [calls] calls of the send operation with [data] and
    the timer waits [waits]; the console apart, nothing else differs. *)
Definition retried (data : LeadData) (calls : nat) (waits : list N)
    (w w' : World) : Prop :=
  sent w' = sent w ++ replicate calls data
  ∧ timers w' = timers w ++ waits
  ∧ tracked w' = tracked w
  ∧ localStorage w' = localStorage w
  ∧ protocols w' = protocols w
  ∧ clock w' = clock w
  ∧ writes w' = writes w.

(** Counted from call number [n], the send operation fails [k] times and
    then succeeds; it fails [k] times. *)
Definition failsThenSucceeds (send : nat → SendOutcome) (n k : nat) : Prop :=
  (∀ i, (i < k)%nat → send (n + i)%nat ≠ Fulfilled)
  ∧ send (n + k)%nat = Fulfilled.

Definition failsFor (send : nat → SendOutcome) (n k : nat) : Prop :=
  ∀ i, (i < k)%nat → send (n + i)%nat ≠ Fulfilled.

Section Outcomes.

Variable toUpperCase : jsstring → jsstring.
Variable window : Window.

(** The token [generateSecureProtocol] builds when [n] tokens have been
    generated and the clock has been read [c] times before. *)
Definition protocolAt (n c : nat) : jsstring :=
  match randomUUID window with
  | Some uuid => lit "GLX-" ++ toUpperCase (split_head 0x2D (uuid n))
  | None =>
    lit "GLX-" ++ toUpperCase (toString36 (Date_now window c))
    ++ lit "-" ++ toUpperCase (substring 2 6 (Math_random window n))
  end.

(** Only the fallback path of the generator reads the clock. *)
Definition clockAfterDraw (c : nat) : nat :=
  match randomUUID window with
  | Some _ => c
  | None => S c
  end.

Definition drawn (w : World) : World :=
  mkWorld (sent w) (timers w) (tracked w) (console w) (localStorage w)
          (S (protocols w)) (clockAfterDraw (clock w)) (writes w).

(** The world after [saveToLocalStorage] has run with lead data [d]. *)
Definition saved (d : LeadData) (w : World) : World :=
  if setItem_ok window (writes w) then
    store backupKey (stringifyBackup d (toISOString window (clock w)))
          (tick_writes (tick_clock w))
  else log_console (SaveFailed DOMException) (tick_writes (tick_clock w)).

(** Delivery at the terminal step fails: the send operation is missing, or
    its next three calls fail. *)
Definition deliveryFails (w : World) : Prop :=
  match sendContactEmail window with
  | None => True
  | Some send => failsFor send (length (sent w)) 3
  end.

(** Delivery succeeds at the call after [k] failures, [k < 3]. *)
Definition deliverySucceeds (w : World) (k : nat) : Prop :=
  match sendContactEmail window with
  | None => False
  | Some send => (k < 3)%nat ∧ failsThenSucceeds send (length (sent w)) k
  end.

End Outcomes.

(** A complete conversation: six messages answered in turn. *)
Definition traversal (toLowerCase toUpperCase : jsstring → jsstring)
    (window : Window) (trigger name role email challenge message : jsstring)
  : JS () :=
  Luna.respond toLowerCase toUpperCase window trigger;;
  Luna.respond toLowerCase toUpperCase window name;;
  Luna.respond toLowerCase toUpperCase window role;;
  Luna.respond toLowerCase toUpperCase window email;;
  Luna.respond toLowerCase toUpperCase window challenge;;
  Luna.respond toLowerCase toUpperCase window message.


(** ** Sample pages

    Concrete globals and pages on which the statements below are run. *)

Definition alwaysRejects : nat → SendOutcome := λ _, Rejected.

(** Rejects its first two calls, then delivers. *)
Definition deliversThird : nat → SendOutcome :=
  λ n, if (n <? 2)%nat then Rejected else Fulfilled.

Definition sampleUUID (n : nat) : jsstring :=
  match n with
  | O => lit "a3f8b7c2-5d1e-4f6a-9b0c-1d2e3f4a5b6c"
  | _ => lit "0b9e8d7c-6f5a-4e3d-8c2b-1a0f9e8d7c6b"
  end.

Definition sampleWindow (send : option (nat → SendOutcome)) (storage : bool)
  : Window :=
  mkWindow send true (Some sampleUUID) (λ _, 1700000000000)
           (λ _, lit "0.4fzyo82mvyr") (λ _, lit "2026-01-01T12:00:00.000Z")
           (λ _, storage).

(** A page without [crypto.randomUUID] (not served over HTTPS). *)
Definition insecureWindow : Window :=
  mkWindow (Some deliversThird) false None (λ _, 1700000000000)
           (λ _, lit "0.4fzyo82mvyr") (λ _, lit "2026-01-01T12:00:00.000Z")
           (λ _, true).

Definition freshWorld : World := mkWorld [] [] [] [] ∅ 0 0 0.

Definition pageIn (s : FlowState) (d : LeadData) : Page :=
  mkPage (mkLuna s d [] []) freshWorld.

Definition sampleLead : LeadData :=
  mkLead (Some (lit "João Silva")) (Some (lit "Diretor"))
         (Some (lit "joao@clinica.com.br")) (Some (lit "Custos")) None.


(** ** Sessions

    A visitor fills the input field and submits; the page the submission
    leaves is the page the next one starts on, also when the reply could
    not be built. *)

Definition submit (toLowerCase toUpperCase : jsstring → jsstring)
    (window : Window) (input : jsstring) (p : Page) : Page :=
  (Luna.sendMessage toLowerCase toUpperCase window
     (mkPage (set_chatInput input (this p)) (world p))).2.

Definition session (toLowerCase toUpperCase : jsstring → jsstring)
    (window : Window) (inputs : list jsstring) (p : Page) : Page :=
  foldl (λ q input, submit toLowerCase toUpperCase window input q) p inputs.

(** The reply the timer callback of [sendMessage] computes: by
    [handleFlow] inside a conversation, by [checkIntents] in IDLE. *)
Definition dispatch (toLowerCase toUpperCase : jsstring → jsstring)
    (window : Window) (message : jsstring) : JS jsstring :=
  λ p, (if negb (Luna.isIDLE (flowState (this p)))
        then Luna.handleFlow toUpperCase window message
        else Luna.checkIntents toLowerCase window message) p.

(** The outcomes of a terminal step: a reply with a link whose text was
    URI-encoded, or a URIError. *)
Definition linkReply (R : Completion jsstring) : Prop :=
  (∃ text enc token,
      encodeURIComponent text = Some enc
      ∧ (R = Normal (successReply token (waLinkOf enc))
         ∨ R = Normal (fallbackReply (waLinkOf enc))))
  ∨ R = Throw URIError.

(** The state after the current one in the order of the conversation. *)
Definition nextState (s : FlowState) : FlowState :=
  match s with
  | IDLE => NAME
  | NAME => ROLE
  | ROLE => EMAIL
  | EMAIL => DESAFIO
  | DESAFIO => DUVIDA
  | DUVIDA => IDLE
  end.

Definition validName (d : LeadData) : Prop :=
  ∃ n, nome d = Some n ∧ (3 ≤ length n)%nat.

Definition validEmail (d : LeadData) : Prop :=
  ∃ e, email d = Some e ∧ Matches emailRegex e.

(** What the lead data holds when the conversation is in state [s]. *)
Definition collected (s : FlowState) (d : LeadData) : Prop :=
  match s with
  | IDLE | NAME => True
  | ROLE => validName d
  | EMAIL => validName d ∧ is_Some (cargo d)
  | DESAFIO => validName d ∧ is_Some (cargo d) ∧ validEmail d
  | DUVIDA => validName d ∧ is_Some (cargo d) ∧ validEmail d ∧ is_Some (desafio d)
  end.

(** A record with all five answers, a name of at least 3 code units and
    an email of the accepted shape. *)
Definition complete (d : LeadData) : Prop :=
  validName d ∧ is_Some (cargo d) ∧ validEmail d ∧ is_Some (desafio d)
  ∧ is_Some (mensagem d).

(** Code units that stay as they are in a URI component, and the units of
    a percent escape. *)
Definition uriSafe (c : N) : bool := uriUnreserved c || (c =? 0x25).

(** ** Properties of the built-ins *)

Arguments lit : simpl never.

Lemma Matches_Never s : ¬ Matches Never s.
Proof. inversion 1. Qed.

Lemma Matches_Empty s : Matches Empty s ↔ s = [].
Proof. split; [by inversion 1 | intros ->; constructor]. Qed.

Lemma Matches_Seq r1 r2 s :
  Matches (Seq r1 r2) s ↔ ∃ s1 s2, s = s1 ++ s2 ∧ Matches r1 s1 ∧ Matches r2 s2.
Proof.
  split.
  - inversion 1; subst; eauto.
  - intros (s1 & s2 & -> & H1 & H2). by constructor.
Qed.

Lemma Matches_Alt r1 r2 s :
  Matches (Alt r1 r2) s ↔ Matches r1 s ∨ Matches r2 s.
Proof.
  split.
  - inversion 1; subst; eauto.
  - intros [H | H]; [by apply MAltL | by apply MAltR].
Qed.

Lemma Matches_Class p s :
  Matches (Class p) s ↔ ∃ c, s = [c] ∧ p c = true.
Proof.
  split.
  - inversion 1; subst; eauto.
  - intros (c & -> & H). by constructor.
Qed.

Lemma nullable_Matches r : nullable r = true ↔ Matches r [].
Proof.
  induction r as [| | p | r1 IH1 r2 IH2 | r1 IH1 r2 IH2 | r IH]; simpl.
  - split; [done | by intros ?%Matches_Never].
  - split; [constructor | done].
  - split; [done | by inversion 1].
  - rewrite andb_true_iff, IH1, IH2, Matches_Seq. split.
    + intros [H1 H2]. by exists [], [].
    + intros (s1 & s2 & Hs & H1 & H2).
      symmetry in Hs. apply app_eq_nil in Hs as [-> ->]. done.
  - by rewrite orb_true_iff, IH1, IH2, Matches_Alt.
  - split; [constructor | done].
Qed.

Lemma seq_Matches r1 r2 s : Matches (seq_ r1 r2) s ↔ Matches (Seq r1 r2) s.
Proof.
  rewrite Matches_Seq.
  assert (Hnever1 : ∀ r, (∃ s1 s2, s = s1 ++ s2 ∧ Matches Never s1 ∧ Matches r s2) → False).
  { intros r (? & ? & _ & []%Matches_Never & _). }
  assert (Hnever2 : ∀ r, (∃ s1 s2, s = s1 ++ s2 ∧ Matches r s1 ∧ Matches Never s2) → False).
  { intros r (? & ? & _ & _ & []%Matches_Never). }
  assert (Hempty : ∀ r, Matches r s ↔ ∃ s1 s2, s = s1 ++ s2 ∧ Matches Empty s1 ∧ Matches r s2).
  { intros r. split.
    - intros H. exists [], s. repeat split; [constructor | done].
    - intros (s1 & s2 & -> & ->%Matches_Empty & H). done. }
  destruct r1, r2; simpl;
    first [ apply Hempty
          | by rewrite Matches_Seq
          | split; [by intros ?%Matches_Never | intros H; exfalso; eauto] ].
Qed.

Lemma alt_Matches r1 r2 s : Matches (alt_ r1 r2) s ↔ Matches (Alt r1 r2) s.
Proof.
  rewrite Matches_Alt.
  destruct r1, r2; simpl; rewrite ?Matches_Alt;
    split; intros; try tauto;
    repeat match goal with
           | H : _ ∨ _ |- _ => destruct H
           | H : Matches Never _ |- _ => by apply Matches_Never in H
           end; tauto.
Qed.

Lemma Matches_Star_cons r c s :
  Matches (Star r) (c :: s) →
  ∃ s1 s2, s = s1 ++ s2 ∧ Matches r (c :: s1) ∧ Matches (Star r) s2.
Proof.
  intros H. remember (Star r) as r' eqn:Hr. remember (c :: s) as s' eqn:Hs.
  revert s Hs.
  induction H as [| | | | | | r0 s1 s2 H1 _ H2 IH2]; try discriminate.
  injection Hr as ->. intros s Hs.
  destruct s1 as [|c1 s1]; simpl in Hs.
  - by apply IH2.
  - injection Hs as -> <-. eauto.
Qed.

Lemma deriv_Matches c r s : Matches (deriv c r) s ↔ Matches r (c :: s).
Proof.
  revert s.
  induction r as [| | p | r1 IH1 r2 IH2 | r1 IH1 r2 IH2 | r IH]; intros s; simpl.
  - split; by intros ?%Matches_Never.
  - split; [by intros ?%Matches_Never | by inversion 1].
  - destruct (p c) eqn:Hp.
    + rewrite Matches_Empty. split.
      * intros ->. by constructor.
      * by inversion 1.
    + split; [by intros ?%Matches_Never | inversion 1; congruence].
  - assert (Hl : Matches (seq_ (deriv c r1) r2) s ↔
                 ∃ s1 s2, s = s1 ++ s2 ∧ Matches r1 (c :: s1) ∧ Matches r2 s2).
    { rewrite seq_Matches, Matches_Seq. by setoid_rewrite IH1. }
    rewrite Matches_Seq.
    destruct (nullable r1) eqn:Hn.
    + rewrite alt_Matches, Matches_Alt, Hl, IH2. split.
      * intros [(s1 & s2 & -> & H1 & H2) | H2].
        -- by exists (c :: s1), s2.
        -- exists [], (c :: s). by rewrite <- nullable_Matches.
      * intros ([|c1 s1] & s2 & Hs & H1 & H2); simpl in Hs.
        -- subst s2. by right.
        -- injection Hs as <- ->. left. eauto.
    + rewrite Hl. split.
      * intros (s1 & s2 & -> & H1 & H2). by exists (c :: s1), s2.
      * intros ([|c1 s1] & s2 & Hs & H1 & H2); simpl in Hs.
        -- apply nullable_Matches in H1. congruence.
        -- injection Hs as <- ->. eauto.
  - by rewrite alt_Matches, !Matches_Alt, IH1, IH2.
  - rewrite seq_Matches, Matches_Seq. setoid_rewrite IH. split.
    + intros (s1 & s2 & -> & H1 & H2). by apply (MStarCons r (c :: s1) s2).
    + apply Matches_Star_cons.
Qed.

(** The matcher decides the pattern. *)
Lemma test_Matches r s : test r s = true ↔ Matches r s.
Proof.
  revert r. induction s as [|c s IH]; intros r; simpl.
  - apply nullable_Matches.
  - by rewrite IH, deriv_Matches.
Qed.

Lemma Matches_Star_Class p s :
  Matches (Star (Class p)) s ↔ forallb p s = true.
Proof.
  split.
  - intros H. remember (Star (Class p)) as r eqn:Hr.
    induction H as [| | | | | | r0 s1 s2 H1 _ H2 IH2]; try discriminate; [done |].
    injection Hr as ->. apply Matches_Class in H1 as (c & -> & Hc).
    simpl. rewrite Hc. by apply IH2.
  - induction s as [|c s IH]; simpl; [constructor |].
    intros [Hc Hs]%andb_true_iff.
    apply (MStarCons _ [c] s); [by constructor | auto].
Qed.

Lemma Matches_Plus_Class p s :
  Matches (Plus (Class p)) s ↔ s ≠ [] ∧ forallb p s = true.
Proof.
  unfold Plus. rewrite Matches_Seq. split.
  - intros (s1 & s2 & -> & (c & -> & Hc)%Matches_Class & H2%Matches_Star_Class).
    simpl. by rewrite Hc, H2.
  - intros [Hne Hall]. destruct s as [|c s]; [done |].
    simpl in Hall. apply andb_true_iff in Hall as [Hc Hs].
    exists [c], s. split; [done |]. split; [by constructor |].
    by apply Matches_Star_Class.
Qed.

(** What the email pattern accepts: three non-empty runs of code units
    that are neither white space nor [@], with one [@] after the first and
    a dot before the last (the middle and last run may hold more dots). *)
Lemma emailRegex_shape (s : jsstring) :
  Matches emailRegex s ↔
  ∃ a b c, s = a ++ [0x40] ++ b ++ [0x2E] ++ c
           ∧ (a ≠ [] ∧ forallb notSpaceAt a = true)
           ∧ (b ≠ [] ∧ forallb notSpaceAt b = true)
           ∧ (c ≠ [] ∧ forallb notSpaceAt c = true).
Proof.
  unfold emailRegex. split.
  - intros (a & s1 & -> & Ha%Matches_Plus_Class & H1)%Matches_Seq.
    apply Matches_Seq in H1 as (at_ & s2 & -> & (x & -> & Hx%N.eqb_eq)%Matches_Class & H2).
    apply Matches_Seq in H2 as (b & s3 & -> & Hb%Matches_Plus_Class & H3).
    apply Matches_Seq in H3 as (dot & c & -> & (y & -> & Hy%N.eqb_eq)%Matches_Class & Hc%Matches_Plus_Class).
    subst x y. by exists a, b, c.
  - intros (a & b & c & -> & Ha & Hb & Hc).
    apply MSeq; [by apply Matches_Plus_Class |].
    apply MSeq; [by constructor |].
    apply MSeq; [by apply Matches_Plus_Class |].
    apply MSeq; [by constructor |].
    by apply Matches_Plus_Class.
Qed.

Lemma startsWith_spec (s t : jsstring) :
  startsWith s t = true ↔ ∃ v, s = t ++ v.
Proof.
  revert s. induction t as [|d t IH]; intros s; simpl.
  - split; [intros _; by exists s | done].
  - destruct s as [|c s]; simpl.
    + split; [done | by intros [? ?]].
    + rewrite andb_true_iff, N.eqb_eq, IH. split.
      * intros [-> [v ->]]. eauto.
      * intros [v [= -> ->]]. eauto.
Qed.

(** [includes] is the substring relation. *)
Lemma includes_spec (s t : jsstring) :
  includes s t = true ↔ ∃ u v, s = u ++ t ++ v.
Proof.
  induction s as [|c s IH]; simpl.
  - rewrite orb_false_r, startsWith_spec. split.
    + intros [v ->]. by exists [], v.
    + intros (u & v & Hs). symmetry in Hs.
      apply app_eq_nil in Hs as [-> Hs]. eauto.
  - rewrite orb_true_iff, startsWith_spec, IH. split.
    + intros [[v ->] | (u & v & ->)]; [by exists [], v | by exists (c :: u), v].
    + intros ([|c' u] & v & Hs); simpl in Hs.
      * left; eauto.
      * injection Hs as -> ->. right; eauto.
Qed.

Lemma includes_middle (u t v : jsstring) : includes (u ++ t ++ v) t = true.
Proof. apply includes_spec. eauto. Qed.

Lemma trimStart_blank (s : jsstring) :
  forallb isWhiteSpace s = true → trimStart s = [].
Proof.
  induction s as [|c s IH]; simpl; [done |].
  intros [Hc Hs]%andb_true_iff. rewrite Hc. auto.
Qed.

Lemma trim_blank (s : jsstring) :
  forallb isWhiteSpace s = true → trim s = [].
Proof. intros H. unfold trim, trimEnd. by rewrite (trimStart_blank s H). Qed.

(** [encodeURIComponent] throws exactly on strings with an unpaired
    surrogate. *)
Lemma encodeURIComponent_wellFormed (s : jsstring) :
  isWellFormed s = true ↔ is_Some (encodeURIComponent s).
Proof.
  assert (Hlen : ∀ n (s : jsstring), (length s < n)%nat →
            isWellFormed s = true ↔ is_Some (encodeURIComponent s)).
  { clear s. induction n as [|n IH]; intros s Hn; [lia |].
    destruct s as [|c s]; simpl; [by split; eauto |].
    assert (Hu : uriUnreserved c = true →
                 isLeadSurrogate c = false ∧ isTrailSurrogate c = false).
    { unfold uriUnreserved, isAlnum, isLeadSurrogate, isTrailSurrogate.
      rewrite !orb_true_iff, !andb_true_iff, !andb_false_iff,
              !N.leb_le, !N.leb_gt, !N.eqb_eq. lia. }
    simpl in Hn.
    destruct (uriUnreserved c) eqn:Hc.
    - destruct (Hu eq_refl) as [-> ->]. simpl.
      rewrite fmap_is_Some. apply IH. lia.
    - destruct (isLeadSurrogate c).
      + destruct s as [|d s]; [by split; [|intros []] |].
        destruct (isTrailSurrogate d); simpl.
        * rewrite fmap_is_Some. apply IH. simpl in Hn. lia.
        * by split; [|intros []].
      + destruct (isTrailSurrogate c); simpl.
        * by split; [|intros []].
        * rewrite fmap_is_Some. apply IH. lia. }
  apply (Hlen (S (length s))). lia.
Qed.

(** ** Properties of the chatbot *)

Section Properties.

Variable toLowerCase toUpperCase : jsstring → jsstring.
Variable window : Window.

Local Abbreviation handleFlow := (Luna.handleFlow toUpperCase window).
Local Abbreviation checkIntents := (Luna.checkIntents toLowerCase window).
Local Abbreviation startLeadFlow := (Luna.startLeadFlow window).
Local Abbreviation sendMessage := (Luna.sendMessage toLowerCase toUpperCase window).
Local Abbreviation respond := (Luna.respond toLowerCase toUpperCase window).
Local Abbreviation generateSecureProtocol := (Luna.generateSecureProtocol toUpperCase window).
Local Abbreviation sendEmailWithRetry := (Luna.sendEmailWithRetry window).
Local Abbreviation retryLoop := (Luna.retryLoop window).
Local Abbreviation saveToLocalStorage := (Luna.saveToLocalStorage window).

(** Running a computation: unfold the monad and the page primitives. *)
Ltac js_unfold :=
  unfold mbind, mret, mthrow, JS_bind, JS_ret, JS_throw, try_catch, outOfFuel,
    getThis, getWorld, modifyThis, modifyWorld, console_error, sleep in *.

Ltac js_run := js_unfold; cbn in *.

(** C8. In state NAME an input whose trimmed length is below 3 leaves the
    whole page as it is (the state stays NAME, the stored name and every
    other field keep their value) and the reply is the request for a
    valid name. *)
Theorem short_name_rejected (input : jsstring) (p : Page) :
  flowState (this p) = NAME →
  (length (trim input) < 3)%nat →
  handleFlow input p = (Normal invalidNameReply, p).
Proof.
  intros Hst Hlen%Nat.ltb_lt. unfold Luna.handleFlow. js_run.
  rewrite Hst, Hlen. by destruct p.
Qed.


(** C10. A submission whose input field is empty or holds white space
    only changes nothing on the page: state, lead data, input field, chat
    messages, timers and every other effect stay as they were. *)
Theorem blank_input_ignored (p : Page) :
  forallb isWhiteSpace (chatInput (this p)) = true →
  sendMessage p = (Normal (), p).
Proof.
  intros Hb. unfold Luna.sendMessage. js_run.
  rewrite (trim_blank _ Hb). by destruct p.
Qed.

Lemma checkIntents_trigger (message t u v : jsstring) (p : Page) :
  In t triggers →
  toLowerCase message = u ++ t ++ v →
  checkIntents message p =
    (Normal namePrompt,
     mkPage (mkLuna NAME emptyLead (chatInput (this p)) (chatMessages (this p)))
       (if trackEvent window
        then log_tracked (chatbot_initiated (toISOString window (clock (world p))))
                         (tick_clock (world p))
        else world p)).
Proof.
  intros Ht Hm.
  assert (Hex : existsb (λ t, includes (toLowerCase message) t) triggers = true).
  { apply existsb_exists. exists t. split; [done |].
    rewrite Hm. apply includes_middle. }
  unfold Luna.checkIntents. rewrite Hex.
  unfold Luna.startLeadFlow, Luna.new_Date_toISOString, Luna.window_trackEvent.
  js_run. by destruct (trackEvent window).
Qed.

(** The page [respond] hands to the state machine, and the page it leaves
    once the reply [r] has come back on page [q]. *)
Lemma respond_run (message : jsstring) (p : Page) :
  respond message p =
    match (if negb (Luna.isIDLE (flowState (this p)))
           then handleFlow message else checkIntents message)
            (mkPage (set_chatMessages (Luna.removeTyping (chatMessages (this p)))
                                      (this p)) (world p)) with
    | (Normal r, q) =>
      (Normal (),
       mkPage (set_chatMessages (chatMessages (this q) ++ [Message Bot r]) (this q))
              (world q))
    | (Throw e, q) => (Throw e, q)
    | (OutOfFuel, q) => (OutOfFuel, q)
    end.
Proof.
  unfold Luna.respond, Luna.hideTyping, Luna.addMessage.
  unfold mbind at 1 2. unfold JS_bind, modifyThis, getThis. cbn [this world fst snd].
  unfold mbind, JS_bind. cbn [flowState set_chatMessages].
  destruct (_ (mkPage _ _)) as [[r|e|] q]; reflexivity.
Qed.

(** C6. When the lower-cased message contains a trigger keyword,
    [checkIntents] empties the lead data, sets the state to NAME and
    returns the name prompt (the only other effect is the analytics event,
    when the page tracks events); and on a page in state IDLE this is what
    the chatbot answers with. *)
Theorem trigger_starts_flow (message t u v : jsstring) (p : Page) :
  In t triggers →
  toLowerCase message = u ++ t ++ v →
  let w' := if trackEvent window
            then log_tracked (chatbot_initiated (toISOString window (clock (world p))))
                             (tick_clock (world p))
            else world p in
  checkIntents message p =
    (Normal namePrompt,
     mkPage (mkLuna NAME emptyLead (chatInput (this p)) (chatMessages (this p))) w')
  ∧ (flowState (this p) = IDLE →
     respond message p =
       (Normal (),
        mkPage (mkLuna NAME emptyLead (chatInput (this p))
                       (Luna.removeTyping (chatMessages (this p))
                        ++ [Message Bot namePrompt]))
               w')).
Proof.
  intros Ht Hm w'. split; [by eapply checkIntents_trigger |].
  intros Hst. rewrite respond_run, Hst. cbn [Luna.isIDLE negb].
  by erewrite checkIntents_trigger.
Qed.

Lemma lit_GLX : lit "GLX-" = [0x47; 0x4C; 0x58; 0x2D].
Proof. reflexivity. Qed.

(** C9. [generateSecureProtocol] always returns a token, and the token is
    the tag GLX- followed by the upper-cased first segment of the random
    UUID when [crypto.randomUUID] exists, and by the upper-cased base-36
    time stamp, a dash and the upper-cased slice of the base-36 random
    number when it does not; so it is never empty and starts with GLX-. *)
Theorem protocol_has_tag (p : Page) :
  ∃ token p',
    generateSecureProtocol p = (Normal token, p')
    ∧ token ≠ []
    ∧ startsWith token (lit "GLX-") = true
    ∧ match randomUUID window with
      | Some uuid =>
        token = lit "GLX-" ++ toUpperCase (split_head 0x2D (uuid (protocols (world p))))
      | None =>
        token = lit "GLX-" ++ toUpperCase (toString36 (Date_now window (clock (world p))))
                ++ lit "-"
                ++ toUpperCase (substring 2 6 (Math_random window (protocols (world p))))
      end.
Proof.
  unfold Luna.generateSecureProtocol, Luna.Date_now_read. js_run.
  destruct (randomUUID window) as [uuid|]; cbn;
    eexists _, _; (split; [reflexivity |]);
    (split; [by rewrite lit_GLX |]);
    (split; [apply startsWith_spec; eauto | done]).
Qed.

(** *** The retry loop *)

Lemma retried_refl data w : retried data 0 [] w w.
Proof. unfold retried. simpl. by rewrite !app_nil_r. Qed.

(** One failed attempt that is not the last: the call is logged, the
    error is reported, the loop waits and goes on. *)
Lemma retryLoop_fail_more send data maxRetries fuel attempt p :
  sendContactEmail window = Some send →
  (attempt < maxRetries)%nat →
  send (length (sent (world p))) ≠ Fulfilled →
  ∃ e, retryLoop (S fuel) data maxRetries attempt p =
       retryLoop fuel data maxRetries (S attempt)
         (mkPage (this p)
            (log_timer (backoff attempt)
               (log_console (AttemptFailed attempt e) (log_sent data (world p))))).
Proof.
  intros Hs Hlt Hf. simpl.
  assert (Hle : (attempt <=? maxRetries)%nat = true) by (apply Nat.leb_le; lia).
  apply Nat.ltb_lt in Hlt. rewrite Hle.
  unfold Luna.await_sendContactEmail. rewrite Hs.
  js_run.
  destruct (send (length (sent (world p)))); [done | |];
    cbn; rewrite Hlt; cbn; eauto.
Qed.

Lemma retryLoop_succeeds send data maxRetries k :
  sendContactEmail window = Some send →
  ∀ fuel attempt p,
    (k < fuel)%nat →
    (attempt + k ≤ maxRetries)%nat →
    failsThenSucceeds send (length (sent (world p))) k →
    ∃ w', retryLoop fuel data maxRetries attempt p = (Normal true, mkPage (this p) w')
          ∧ retried data (S k) (map backoff (seq attempt k)) (world p) w'.
Proof.
  intros Hs. induction k as [|k IH]; intros fuel attempt p Hfuel Hmax [Hfail Hok].
  - destruct fuel as [|fuel]; [lia |]. simpl.
    assert (Hle : (attempt <=? maxRetries)%nat = true) by (apply Nat.leb_le; lia).
    rewrite Hle. unfold Luna.await_sendContactEmail. rewrite Hs.
    rewrite Nat.add_0_r in Hok. js_run. rewrite Hok. cbn.
    eexists. split; [reflexivity |].
    unfold retried. cbn. by rewrite app_nil_r.
  - destruct fuel as [|fuel]; [lia |].
    destruct (retryLoop_fail_more send data maxRetries fuel attempt p) as [e ->];
      [done | lia | |].
    { specialize (Hfail 0%nat). rewrite Nat.add_0_r in Hfail. apply Hfail. lia. }
    edestruct (IH fuel (S attempt)) as (w' & -> & Hr); [lia | cbn; lia | |].
    { cbn. rewrite length_app. cbn. split.
      - intros i Hi. replace (length (sent (world p)) + 1 + i)%nat
          with (length (sent (world p)) + S i)%nat by lia. apply Hfail. lia.
      - replace (length (sent (world p)) + 1 + k)%nat
          with (length (sent (world p)) + S k)%nat by lia. done. }
    cbn. eexists. split; [reflexivity |].
    destruct Hr as (H1 & H2 & H3 & H4 & H5 & H6 & H7). cbn in *.
    unfold retried. rewrite H1, H2, H3, H4, H5, H6, H7.
    rewrite <- !app_assoc. done.
Qed.

Lemma retryLoop_exhausts send data maxRetries r :
  sendContactEmail window = Some send →
  ∀ fuel attempt p,
    (r ≤ fuel)%nat →
    (attempt + r = S maxRetries)%nat →
    failsFor send (length (sent (world p))) r →
    ∃ w', retryLoop fuel data maxRetries attempt p = (Normal false, mkPage (this p) w')
          ∧ retried data r (map backoff (seq attempt (r - 1))) (world p) w'.
Proof.
  intros Hs. induction r as [|r IH]; intros fuel attempt p Hfuel Hmax Hfail.
  - assert (Hgt : (attempt <=? maxRetries)%nat = false) by (apply Nat.leb_gt; lia).
    destruct fuel; simpl; rewrite Hgt; js_run;
      (exists (world p); split; [by destruct p | apply retried_refl]).
  - destruct fuel as [|fuel]; [lia |].
    assert (Hf0 : send (length (sent (world p))) ≠ Fulfilled).
    { specialize (Hfail 0%nat). rewrite Nat.add_0_r in Hfail. apply Hfail. lia. }
    destruct r as [|r].
    + (* the last allowed attempt *)
      simpl.
      assert (Hle : (attempt <=? maxRetries)%nat = true) by (apply Nat.leb_le; lia).
      assert (Hlt : (attempt <? maxRetries)%nat = false) by (apply Nat.ltb_ge; lia).
      rewrite Hle. unfold Luna.await_sendContactEmail. rewrite Hs.
      js_run.
      destruct (send (length (sent (world p)))); [done | |];
        cbn; rewrite Hlt; cbn;
        (eexists; split; [reflexivity |]);
        unfold retried; cbn; by rewrite app_nil_r.
    + destruct (retryLoop_fail_more send data maxRetries fuel attempt p) as [e ->];
        [done | lia | done |].
      edestruct (IH fuel (S attempt)) as (w' & -> & Hr); [lia | cbn; lia | |].
      { cbn. rewrite length_app. cbn. intros i Hi.
        replace (length (sent (world p)) + 1 + i)%nat
          with (length (sent (world p)) + S i)%nat by lia. apply Hfail. lia. }
      cbn. eexists. split; [reflexivity |].
      destruct Hr as (H1 & H2 & H3 & H4 & H5 & H6 & H7). cbn in *.
      unfold retried. rewrite H1, H2, H3, H4, H5, H6, H7.
      rewrite Nat.sub_0_r, <- !app_assoc. done.
Qed.

(** Whatever the send operation does, and also when it is missing, the
    loop ends and hands back a boolean. *)
Lemma retryLoop_returns data maxRetries :
  ∀ fuel attempt p,
    (S maxRetries - attempt ≤ fuel)%nat →
    ∃ b p', retryLoop fuel data maxRetries attempt p = (Normal b, p').
Proof.
  induction fuel as [|fuel IH]; intros attempt p Hfuel; simpl.
  - assert (Hgt : (attempt <=? maxRetries)%nat = false) by (apply Nat.leb_gt; lia).
    rewrite Hgt. js_run. eauto.
  - destruct (attempt <=? maxRetries)%nat eqn:Hle; [| js_run; eauto].
    apply Nat.leb_le in Hle.
    unfold Luna.await_sendContactEmail.
    destruct (attempt <? maxRetries)%nat eqn:Hlt;
      (destruct (sendContactEmail window) as [send|]; js_run;
       [destruct (send (length (sent (world p)))); cbn |]);
      eauto; apply IH; lia.
Qed.

Lemma sumN_app (l1 l2 : list N) : sumN (l1 ++ l2) = sumN l1 + sumN l2.
Proof. unfold sumN. induction l1 as [|x l1 IH]; simpl; lia. Qed.

Lemma sumN_backoff a k :
  sumN (map backoff (seq a k)) = 1000 * sumN (map (λ i, 2 ^ N.of_nat (i - 1)) (seq a k)).
Proof.
  revert a. induction k as [|k IH]; intros a; [done |].
  cbn [seq map]. unfold sumN in *. cbn [foldr]. rewrite IH. unfold backoff. lia.
Qed.

Lemma sumN_powers k :
  sumN (map (λ i, 2 ^ N.of_nat (i - 1)) (seq 1 k)) = 2 ^ N.of_nat k - 1.
Proof.
  induction k as [|k IH]; [done |].
  rewrite seq_S, map_app, sumN_app, IH. cbn [map sumN foldr Nat.add].
  replace (S k - 1)%nat with k by lia.
  rewrite Nat2N.inj_succ, N.pow_succ_r'.
  assert (0 < 2 ^ N.of_nat k) by (apply N.neq_0_lt_0, N.pow_nonzero; lia).
  lia.
Qed.

(** C2. When the send operation fails on the next [k] calls and succeeds
    on the one after, with [k] below the maximum (3 when none is given),
    [sendEmailWithRetry] returns true after exactly [k + 1] calls, all with
    the lead data, and the waits it has added are [2^(i-1)] seconds for
    [i = 1 .. k], in this order: [2^k - 1] seconds in total.  The chatbot
    itself is left as it was. *)
Theorem retry_succeeds_after_failures send data maxRetries k p :
  sendContactEmail window = Some send →
  (k < default 3%nat maxRetries)%nat →
  failsThenSucceeds send (length (sent (world p))) k →
  ∃ w' waits,
    sendEmailWithRetry data maxRetries p = (Normal true, mkPage (this p) w')
    ∧ sent w' = sent (world p) ++ replicate (S k) data
    ∧ timers w' = timers (world p) ++ waits
    ∧ waits = map (λ i, 2 ^ N.of_nat (i - 1) * 1000) (seq 1 k)
    ∧ sumN waits = 1000 * sumN (map (λ i, 2 ^ N.of_nat (i - 1)) (seq 1 k))
    ∧ sumN waits = 1000 * (2 ^ N.of_nat k - 1).
Proof.
  intros Hs Hk Hsend. unfold Luna.sendEmailWithRetry.
  destruct (retryLoop_succeeds send data (default 3%nat maxRetries) k Hs
              (default 3%nat maxRetries) 1%nat p) as (w' & Hrun & Hr);
    [lia | lia | done |].
  destruct Hr as (H1 & H2 & _).
  exists w', (map backoff (seq 1 k)).
  rewrite <- sumN_powers, <- sumN_backoff. done.
Qed.

(** C3. [sendEmailWithRetry] always completes normally with a boolean,
    whatever the send operation does; and when every call of the send
    operation fails, by a rejected promise or by throwing, it returns
    false after exactly the maximum number of calls (3 when none is
    given), having waited after each failed attempt but the last. *)
Theorem retry_exhausts data maxRetries p :
  (∃ b p', sendEmailWithRetry data maxRetries p = (Normal b, p'))
  ∧ ∀ send,
      sendContactEmail window = Some send →
      (∀ n, send n ≠ Fulfilled) →
      ∃ w',
        sendEmailWithRetry data maxRetries p = (Normal false, mkPage (this p) w')
        ∧ sent w' = sent (world p) ++ replicate (default 3%nat maxRetries) data
        ∧ timers w' = timers (world p)
                      ++ map (λ i, 2 ^ N.of_nat (i - 1) * 1000)
                             (seq 1 (default 3%nat maxRetries - 1)).
Proof.
  unfold Luna.sendEmailWithRetry. split.
  - apply retryLoop_returns. lia.
  - intros send Hs Hfail.
    destruct (retryLoop_exhausts send data (default 3%nat maxRetries)
                (default 3%nat maxRetries) Hs
                (default 3%nat maxRetries) 1%nat p) as (w' & Hrun & Hr);
      [lia | lia | by intros i _ |].
    destruct Hr as (H1 & H2 & _). eauto.
Qed.

(** *** The terminal step *)

Lemma bind_Normal {A B} (m : JS A) (f : A → JS B) p a p' :
  m p = (Normal a, p') → (m ≫= f) p = f a p'.
Proof. intros H. unfold mbind, JS_bind. by rewrite H. Qed.

Lemma bind_Throw {A B} (m : JS A) (f : A → JS B) p e p' :
  m p = (Throw e, p') → (m ≫= f) p = (Throw e, p').
Proof. intros H. unfold mbind, JS_bind. by rewrite H. Qed.

Lemma try_Normal {A} (m : JS A) h p a p' :
  m p = (Normal a, p') → try_catch m h p = (Normal a, p').
Proof. intros H. unfold try_catch. by rewrite H. Qed.

Lemma try_Throw {A} (m : JS A) h p e p' :
  m p = (Throw e, p') → try_catch m h p = h e p'.
Proof. intros H. unfold try_catch. by rewrite H. Qed.

Lemma generateSecureProtocol_run p :
  generateSecureProtocol p =
    (Normal (protocolAt toUpperCase window (protocols (world p)) (clock (world p))),
     mkPage (this p) (drawn window (world p))).
Proof.
  unfold Luna.generateSecureProtocol, Luna.Date_now_read, protocolAt, drawn,
    clockAfterDraw.
  js_run. by destruct (randomUUID window).
Qed.

Lemma saveToLocalStorage_run p :
  saveToLocalStorage p =
    (Normal (), mkPage (this p) (saved window (leadData (this p)) (world p))).
Proof.
  unfold Luna.saveToLocalStorage, Luna.new_Date_toISOString,
    Luna.localStorage_setItem, saved.
  js_run. by destruct (setItem_ok window (writes (world p))).
Qed.

(** The catch block of the terminal step, from the page [q] it starts on. *)
Lemma fallback_run (error : JSError) (q : Page) :
  let w := drawn window (saved window (leadData (this q))
                           (log_console (ChatbotEmailError error) (world q))) in
  let d := leadData (this q) in
  let token := protocolAt toUpperCase window
                 (protocols (world q)) (S (clock (world q))) in
  let waText := waTextFallback (interp (nome d)) (interp (cargo d))
                               (interp (desafio d)) token in
  (console_error (ChatbotEmailError error);;
   saveToLocalStorage;;
   protocol ← generateSecureProtocol;
   b ← getThis;
   let d := leadData b in
   let waText :=
     waTextFallback (interp (nome d)) (interp (cargo d))
                    (interp (desafio d)) protocol in
   encoded ← Luna.encodeURIComponent_ waText;
   let waLink := waLinkOf encoded in
   mret (fallbackReply waLink)) q
  = (match encodeURIComponent waText with
     | Some enc => Normal (fallbackReply (waLinkOf enc))
     | None => Throw URIError
     end, mkPage (this q) w).
Proof.
  intros w d token waText.
  erewrite bind_Normal by reflexivity.
  erewrite bind_Normal by apply saveToLocalStorage_run.
  erewrite bind_Normal by apply generateSecureProtocol_run.
  erewrite bind_Normal by reflexivity.
  cbn [this world].
  assert (Htok : protocolAt toUpperCase window
            (protocols (saved window (leadData (this q))
                          (log_console (ChatbotEmailError error) (world q))))
            (clock (saved window (leadData (this q))
                      (log_console (ChatbotEmailError error) (world q)))) = token).
  { unfold saved. by destruct (setItem_ok _ _). }
  rewrite Htok. fold d. fold waText. unfold Luna.encodeURIComponent_.
  destruct (encodeURIComponent waText); reflexivity.
Qed.

#[local] Arguments Luna.sendEmailWithRetry : simpl never.
#[local] Arguments Luna.generateSecureProtocol : simpl never.
#[local] Arguments Luna.saveToLocalStorage : simpl never.
#[local] Arguments Luna.encodeURIComponent_ : simpl never.

(** What the world looks like after the catch block, in terms of the
    world [w0] the terminal step started on, when the attempts in between
    left storage and counters alone. *)
Lemma fallback_world (error : JSError) (d : LeadData) (w0 w1 : World) :
  localStorage w1 = localStorage w0 →
  protocols w1 = S (protocols w0) →
  clock w1 = clockAfterDraw window (clock w0) →
  writes w1 = writes w0 →
  tracked w1 = tracked w0 →
  let w' := drawn window (saved window d (log_console (ChatbotEmailError error) w1)) in
  localStorage w' =
    (if setItem_ok window (writes w0)
     then <[backupKey := stringifyBackup d
              (toISOString window (clockAfterDraw window (clock w0)))]>
            (localStorage w0)
     else localStorage w0)
  ∧ protocols w' = S (S (protocols w0))
  ∧ tracked w' = tracked w0
  ∧ clock w' = clockAfterDraw window (S (clockAfterDraw window (clock w0)))
  ∧ writes w' = S (writes w0).
Proof.
  intros H1 H2 H3 H4 H5. unfold saved. cbn. rewrite H4.
  destruct (setItem_ok window (writes w0)); cbn;
    rewrite ?H1, ?H2, ?H3, ?H4, ?H5; done.
Qed.

Lemma terminal_failure input p :
  flowState (this p) = DUVIDA →
  deliveryFails window (world p) →
  let d := set_mensagem (trim input) (leadData (this p)) in
  let token := protocolAt toUpperCase window (S (protocols (world p)))
                 (S (clockAfterDraw window (clock (world p)))) in
  let waText := waTextFallback (interp (nome d)) (interp (cargo d))
                               (interp (desafio d)) token in
  ∃ w',
    handleFlow input p =
      (match encodeURIComponent waText with
       | Some enc => Normal (fallbackReply (waLinkOf enc))
       | None => Throw URIError
       end, mkPage (set_leadData d (this p)) w')
    ∧ localStorage w' =
        (if setItem_ok window (writes (world p))
         then <[backupKey := stringifyBackup d
                  (toISOString window (clockAfterDraw window (clock (world p))))]>
                (localStorage (world p))
         else localStorage (world p))
    ∧ protocols w' = S (S (protocols (world p)))
    ∧ tracked w' = tracked (world p)
    ∧ clock w' = clockAfterDraw window (S (clockAfterDraw window (clock (world p))))
    ∧ writes w' = S (writes (world p)).
Proof.
  intros Hst Hfail d token waText.
  unfold Luna.handleFlow.
  erewrite bind_Normal by reflexivity. rewrite Hst.
  erewrite bind_Normal by reflexivity.
  unfold deliveryFails in Hfail.
  destruct (sendContactEmail window) as [send|] eqn:Hs.
  - (* three failed attempts *)
    set (q := mkPage (set_leadData d (this p)) (drawn window (world p))).
    destruct (retryLoop_exhausts send d 3 3 Hs 3%nat 1%nat q)
      as (w1 & Hrun & Hr); [lia | lia | done |].
    destruct Hr as (R1 & R2 & R3 & R4 & R5 & R6 & R7). cbn in R3, R4, R5, R6, R7.
    exists (drawn window (saved window d
              (log_console (ChatbotEmailError (Error (lit "EmailJS failed after retries"))) w1))).
    split; [| by apply fallback_world].
    erewrite try_Throw.
    2:{ erewrite bind_Normal by apply generateSecureProtocol_run.
        erewrite bind_Throw; [reflexivity |].
        erewrite bind_Normal by reflexivity.
        erewrite bind_Normal by apply Hrun. reflexivity. }
    rewrite fallback_run. cbn [this world]. rewrite R5, R6. reflexivity.
  - (* the send operation is missing *)
    eexists. split.
    + erewrite try_Throw.
      2:{ erewrite bind_Normal by apply generateSecureProtocol_run.
          erewrite bind_Throw; [reflexivity |].
          erewrite bind_Normal by reflexivity. reflexivity. }
      rewrite fallback_run. reflexivity.
    + by apply fallback_world.
Qed.

Lemma terminal_success input p k :
  flowState (this p) = DUVIDA →
  deliverySucceeds window (world p) k →
  let d := set_mensagem (trim input) (leadData (this p)) in
  let token := protocolAt toUpperCase window (protocols (world p)) (clock (world p)) in
  let waText := waTextSuccess (interp (nome d)) (interp (cargo d))
                              (interp (desafio d)) token in
  ∃ R w',
    handleFlow input p = (R, mkPage (set_flowState IDLE (set_leadData d (this p))) w')
    ∧ ∀ enc, encodeURIComponent waText = Some enc →
        R = Normal (successReply token (waLinkOf enc))
        ∧ protocols w' = S (protocols (world p))
        ∧ localStorage w' = localStorage (world p)
        ∧ writes w' = writes (world p)
        ∧ tracked w' = tracked (world p)
                       ++ (if trackEvent window
                           then [lead_submitted token (desafio d)] else [])
        ∧ sent w' = sent (world p) ++ replicate (S k) d.
Proof.
  intros Hst Hok d token waText.
  unfold Luna.handleFlow.
  erewrite bind_Normal by reflexivity. rewrite Hst.
  erewrite bind_Normal by reflexivity.
  unfold deliverySucceeds in Hok.
  destruct (sendContactEmail window) as [send|] eqn:Hs; [| done].
  destruct Hok as [Hk Hsend].
  set (q := mkPage (set_leadData d (this p)) (drawn window (world p))).
  destruct (retryLoop_succeeds send d 3 k Hs 3%nat 1%nat q)
    as (w1 & Hrun & Hr); [lia | lia | done |].
  destruct Hr as (R1 & R2 & R3 & R4 & R5 & R6 & R7). cbn in R1, R3, R4, R5, R6, R7.
  set (w2 := if trackEvent window
             then log_tracked (lead_submitted token (desafio d)) w1 else w1).
  assert (Hbody : ∀ (rest : jsstring → JS jsstring),
    (protocol ← generateSecureProtocol;
     (b ← getThis;
      success ← sendEmailWithRetry (leadData b) (Some 3%nat);
      if negb success
      then mthrow (Error (lit "EmailJS failed after retries"))
      else mret ());;
     modifyThis (set_flowState IDLE);;
     (if trackEvent window then
        b ← getThis;
        Luna.window_trackEvent (lead_submitted protocol (desafio (leadData b)))
      else mret ());;
     rest protocol) (mkPage (set_leadData d (this p)) (world p))
    = rest token (mkPage (set_flowState IDLE (set_leadData d (this p))) w2)).
  { intros rest. unfold w2. clear w2.
    destruct (trackEvent window);
      (erewrite bind_Normal by apply generateSecureProtocol_run;
       erewrite bind_Normal;
       [| erewrite bind_Normal by reflexivity;
          erewrite bind_Normal by apply Hrun; reflexivity ];
       erewrite bind_Normal by reflexivity;
       erewrite bind_Normal by reflexivity;
       reflexivity). }
  destruct (encodeURIComponent waText) as [enc|] eqn:Henc.
  - exists (Normal (successReply token (waLinkOf enc))), w2. split.
    + erewrite try_Normal; [reflexivity |].
      rewrite Hbody.
      erewrite bind_Normal by reflexivity. cbn [this leadData set_flowState set_leadData].
      fold waText. unfold Luna.encodeURIComponent_. rewrite Henc.
      reflexivity.
    + intros ? [= <-]. split; [done |].
      unfold w2. destruct (trackEvent window); cbn;
        rewrite ?R1, ?R3, ?R4, ?R5, ?R7, ?app_nil_r; done.
  - eexists _, _. split; [| done].
    erewrite try_Throw.
    2:{ rewrite Hbody.
        erewrite bind_Normal by reflexivity. cbn [this leadData set_flowState set_leadData].
        fold waText. unfold Luna.encodeURIComponent_. rewrite Henc.
        reflexivity. }
    rewrite fallback_run. reflexivity.
Qed.

(** *** The collecting steps *)

Lemma handleFlow_NAME input p :
  flowState (this p) = NAME →
  (3 ≤ length (trim input))%nat →
  handleFlow input p =
    (Normal (rolePrompt (split_head 0x20 (trim input))),
     mkPage (mkLuna ROLE (set_nome (trim input) (leadData (this p)))
                    (chatInput (this p)) (chatMessages (this p)))
            (world p)).
Proof.
  intros Hst Hlen. unfold Luna.handleFlow.
  erewrite bind_Normal by reflexivity. rewrite Hst.
  assert (Hge : (length (trim input) <? 3)%nat = false) by (apply Nat.ltb_ge; lia).
  rewrite Hge. reflexivity.
Qed.

Lemma handleFlow_ROLE input p :
  flowState (this p) = ROLE →
  handleFlow input p =
    (Normal emailPrompt,
     mkPage (mkLuna EMAIL (set_cargo (trim input) (leadData (this p)))
                    (chatInput (this p)) (chatMessages (this p)))
            (world p)).
Proof.
  intros Hst. unfold Luna.handleFlow.
  erewrite bind_Normal by reflexivity. rewrite Hst. reflexivity.
Qed.

Lemma handleFlow_EMAIL input p :
  flowState (this p) = EMAIL →
  test emailRegex (trim input) = true →
  handleFlow input p =
    (Normal challengePrompt,
     mkPage (mkLuna DESAFIO (set_email (trim input) (leadData (this p)))
                    (chatInput (this p)) (chatMessages (this p)))
            (world p)).
Proof.
  intros Hst Ht. unfold Luna.handleFlow.
  erewrite bind_Normal by reflexivity. rewrite Hst, Ht. reflexivity.
Qed.

Lemma handleFlow_DESAFIO input p :
  flowState (this p) = DESAFIO →
  handleFlow input p =
    (Normal messagePrompt,
     mkPage (mkLuna DUVIDA (set_desafio (trim input) (leadData (this p)))
                    (chatInput (this p)) (chatMessages (this p)))
            (world p)).
Proof.
  intros Hst. unfold Luna.handleFlow.
  erewrite bind_Normal by reflexivity. rewrite Hst. reflexivity.
Qed.

Lemma delivery_cases (w : World) :
  deliveryFails window w ∨ ∃ k, deliverySucceeds window w k.
Proof.
  unfold deliveryFails, deliverySucceeds, failsFor, failsThenSucceeds.
  destruct (sendContactEmail window) as [send|]; [| by left].
  destruct (decide (send (length (sent w) + 0)%nat = Fulfilled)) as [H0|H0].
  { right. exists 0%nat. repeat split; [lia | intros; lia | done]. }
  destruct (decide (send (length (sent w) + 1)%nat = Fulfilled)) as [H1|H1].
  { right. exists 1%nat. repeat split; [lia | | done].
    intros i Hi. by replace i with 0%nat by lia. }
  destruct (decide (send (length (sent w) + 2)%nat = Fulfilled)) as [H2|H2].
  { right. exists 2%nat. repeat split; [lia | | done].
    intros i Hi. destruct i as [|[|i]]; [done | done | lia]. }
  left. intros i Hi. destruct i as [|[|[|i]]]; [done | done | done | lia].
Qed.

Lemma delivery_exclusive (w : World) k :
  deliveryFails window w → deliverySucceeds window w k → False.
Proof.
  unfold deliveryFails, deliverySucceeds, failsFor, failsThenSucceeds.
  destruct (sendContactEmail window) as [send|]; [| done].
  intros Hf (Hk & _ & Hok). by apply (Hf k).
Qed.

(** The terminal step keeps the lead data whatever the delivery does, and
    ends in IDLE when the delivery succeeds. *)
Lemma terminal_step input p :
  flowState (this p) = DUVIDA →
  ∃ R p',
    handleFlow input p = (R, p')
    ∧ leadData (this p') = set_mensagem (trim input) (leadData (this p))
    ∧ (∀ k, deliverySucceeds window (world p) k → flowState (this p') = IDLE).
Proof.
  intros Hst. destruct (delivery_cases (world p)) as [Hf | [k Hk]].
  - destruct (terminal_failure input p Hst Hf) as (w' & Hrun & _).
    eexists _, _. split; [apply Hrun |]. split; [done |].
    intros k Hk. by destruct (delivery_exclusive _ _ Hf Hk).
  - destruct (terminal_success input p k Hst Hk) as (R & w' & Hrun & _).
    eexists _, _. split; [apply Hrun |]. done.
Qed.

Lemma deliverySucceeds_sent (w w' : World) k :
  sent w' = sent w → deliverySucceeds window w k → deliverySucceeds window w' k.
Proof. unfold deliverySucceeds. by intros ->. Qed.

(** [respond] around a step of the state machine that returns a reply. *)
Lemma respond_Normal message p r q :
  (if negb (Luna.isIDLE (flowState (this p)))
   then handleFlow message else checkIntents message)
    (mkPage (set_chatMessages (Luna.removeTyping (chatMessages (this p))) (this p))
            (world p)) = (Normal r, q) →
  respond message p =
    (Normal (),
     mkPage (set_chatMessages (chatMessages (this q) ++ [Message Bot r]) (this q))
            (world q)).
Proof. intros H. by rewrite respond_run, H. Qed.

(** C1, as the code has it.  After a complete valid traversal from IDLE
    (a message with a trigger keyword, a name of at least 3 characters, a
    role, an email that matches the pattern, a challenge and a final
    message) the lead data is not emptied: it holds the five trimmed
    answers, whether the delivery succeeded or not; and when the delivery
    succeeded the state is IDLE. *)
Theorem traversal_end (trigger t u v name role address challenge message : jsstring)
    (p : Page) :
  flowState (this p) = IDLE →
  In t triggers →
  toLowerCase trigger = u ++ t ++ v →
  (3 ≤ length (trim name))%nat →
  Matches emailRegex (trim address) →
  ∃ R p',
    traversal toLowerCase toUpperCase window
              trigger name role address challenge message p = (R, p')
    ∧ leadData (this p') =
        mkLead (Some (trim name)) (Some (trim role)) (Some (trim address))
               (Some (trim challenge)) (Some (trim message))
    ∧ (∀ k, deliverySucceeds window (world p) k → flowState (this p') = IDLE).
Proof.
  intros Hst Ht Hm Hname Hemail%test_Matches. unfold traversal.
  erewrite bind_Normal.
  2:{ apply respond_Normal. rewrite Hst. cbn [Luna.isIDLE negb].
      by eapply checkIntents_trigger. }
  erewrite bind_Normal.
  2:{ apply respond_Normal. cbn [this flowState set_chatMessages Luna.isIDLE negb].
      by apply handleFlow_NAME. }
  erewrite bind_Normal.
  2:{ apply respond_Normal. cbn [this flowState set_chatMessages Luna.isIDLE negb].
      by apply handleFlow_ROLE. }
  erewrite bind_Normal.
  2:{ apply respond_Normal. cbn [this flowState set_chatMessages Luna.isIDLE negb].
      by apply handleFlow_EMAIL. }
  erewrite bind_Normal.
  2:{ apply respond_Normal. cbn [this flowState set_chatMessages Luna.isIDLE negb].
      by apply handleFlow_DESAFIO. }
  rewrite respond_run.
  cbn [this world flowState leadData chatInput chatMessages set_chatMessages
       set_nome set_cargo set_email set_desafio nome cargo email desafio mensagem
       emptyLead Luna.isIDLE negb].
  match goal with
  | |- context [handleFlow message ?q] =>
    destruct (terminal_step message q eq_refl) as (R & p' & Hrun & Hlead & Hidle)
  end.
  rewrite Hrun.
  assert (Hidle' : ∀ k, deliverySucceeds window (world p) k → flowState (this p') = IDLE).
  { intros k Hk. apply (Hidle k). revert Hk. apply deliverySucceeds_sent.
    cbn [world]. by destruct (trackEvent window). }
  cbn in Hlead.
  destruct R as [r|e|]; eexists _, _; (split; [reflexivity |]); done.
Qed.


End Properties.

(** *** The two causes of a failed delivery *)


(** ** The statements on sample pages *)

(** C8 on the name Jo. *)
Lemma short_name_Jo :
  let p := pageIn NAME emptyLead in
  (length (trim (lit "Jo")) < 3)%nat
  ∧ Luna.handleFlow latin1_toUpperCase (sampleWindow None true) (lit "Jo") p
    = (Normal invalidNameReply, p).
Proof.
  intros p.
  assert (H : (length (trim (lit "Jo")) < 3)%nat) by (vm_compute; lia).
  split; [exact H |].
  apply (short_name_rejected latin1_toUpperCase (sampleWindow None true)
           (lit "Jo") p); [reflexivity | exact H].
Defined.


(** C10 on an input of blanks, in the middle of a conversation. *)
Lemma blank_input_sample :
  let p := mkPage (mkLuna ROLE sampleLead [0x20; 0x09; 0x3000; 0x0A]
                          [Message Bot emailPrompt])
                  freshWorld in
  Luna.sendMessage latin1_toLowerCase latin1_toUpperCase
    (sampleWindow (Some alwaysRejects) true) p = (Normal (), p).
Proof.
  intros p.
  apply (blank_input_ignored latin1_toLowerCase latin1_toUpperCase
           (sampleWindow (Some alwaysRejects) true) p).
  vm_compute. reflexivity.
Defined.

(** C6 on the message of the scenario. *)
Lemma quero_orcamento_starts_flow :
  let p := pageIn IDLE sampleLead in
  let win := sampleWindow None true in
  let r := Luna.checkIntents latin1_toLowerCase win (lit "quero orçamento") p in
  r.1 = Normal namePrompt
  ∧ flowState (this r.2) = NAME
  ∧ leadData (this r.2) = emptyLead.
Proof.
  intros p win r.
  destruct (trigger_starts_flow latin1_toLowerCase latin1_toUpperCase win
              (lit "quero orçamento") (lit "orçamento") (lit "quero ") [] p)
    as [Hrun _].
  - unfold triggers. cbn [map In]. do 12 right. left. reflexivity.
  - vm_compute. reflexivity.
  - subst r. rewrite Hrun. cbn. auto.
Defined.

(** C9 on both paths: with [crypto.randomUUID], and without it. *)
Lemma protocol_samples :
  (Luna.generateSecureProtocol latin1_toUpperCase (sampleWindow None true)
     (pageIn DUVIDA sampleLead)).1 = Normal (lit "GLX-A3F8B7C2")
  ∧ (Luna.generateSecureProtocol latin1_toUpperCase insecureWindow
       (pageIn DUVIDA sampleLead)).1 = Normal (lit "GLX-LOYW3V28-4FZY").
Proof. split; vm_compute; reflexivity. Qed.

(** C2 with two rejections before the delivery. *)
Lemma retry_third_attempt :
  let p := pageIn DUVIDA sampleLead in
  ∃ w',
    Luna.sendEmailWithRetry (sampleWindow (Some deliversThird) true)
      sampleLead None p = (Normal true, mkPage (this p) w')
    ∧ sent w' = [sampleLead; sampleLead; sampleLead]
    ∧ timers w' = [1000; 2000].
Proof.
  intros p.
  destruct (retry_succeeds_after_failures (sampleWindow (Some deliversThird) true)
              deliversThird sampleLead None 2 p eq_refl)
    as (w' & waits & Hrun & Hs & Ht & Hw & _).
  - cbn. lia.
  - split.
    + intros i Hi. destruct i as [|[|i]]; [discriminate | discriminate | lia].
    + reflexivity.
  - exists w'. split; [exact Hrun |]. split; [exact Hs |].
    rewrite Ht, Hw. reflexivity.
Defined.

(** C3 with a send operation that rejects every call. *)
Lemma retry_three_rejections :
  let p := pageIn DUVIDA sampleLead in
  ∃ w',
    Luna.sendEmailWithRetry (sampleWindow (Some alwaysRejects) true)
      sampleLead None p = (Normal false, mkPage (this p) w')
    ∧ sent w' = [sampleLead; sampleLead; sampleLead]
    ∧ timers w' = [1000; 2000].
Proof.
  intros p.
  destruct (proj2 (retry_exhausts (sampleWindow (Some alwaysRejects) true)
                     sampleLead None p) alwaysRejects eq_refl)
    as (w' & Hrun & Hs & Ht).
  - intros n. discriminate.
  - exists w'. split; [exact Hrun |]. split; [exact Hs | exact Ht].
Defined.

(** C1 as the code has it, on a conversation delivered at the third
    attempt. *)
Lemma traversal_end_sample :
  let win := sampleWindow (Some deliversThird) true in
  ∃ R p',
    traversal latin1_toLowerCase latin1_toUpperCase win
      (lit "quero orçamento") (lit "João Silva") (lit "Diretor")
      (lit "joao@clinica.com.br") (lit "Custos") (lit "Sem dúvida")
      (pageIn IDLE emptyLead) = (R, p')
    ∧ leadData (this p') = set_mensagem (lit "Sem dúvida") sampleLead
    ∧ flowState (this p') = IDLE.
Proof.
  intros win.
  destruct (traversal_end latin1_toLowerCase latin1_toUpperCase win
              (lit "quero orçamento") (lit "orçamento") (lit "quero ") []
              (lit "João Silva") (lit "Diretor") (lit "joao@clinica.com.br")
              (lit "Custos") (lit "Sem dúvida") (pageIn IDLE emptyLead))
    as (R & p' & Hrun & Hlead & Hidle).
  - reflexivity.
  - unfold triggers. cbn [map In]. do 12 right. left. reflexivity.
  - vm_compute. reflexivity.
  - vm_compute. lia.
  - apply test_Matches. vm_compute. reflexivity.
  - exists R, p'. split; [exact Hrun |]. split; [exact Hlead |].
    apply (Hidle 2%nat). split; [lia |]. split.
    + intros i Hi. destruct i as [|[|i]]; [discriminate | discriminate | lia].
    + reflexivity.
Defined.

(** C1 as stated fails: after a conversation whose three delivery
    attempts are rejected the state is still DUVIDA, and after either
    outcome the lead data holds the answers. *)
Lemma traversal_not_reset :
  let run send :=
    traversal latin1_toLowerCase latin1_toUpperCase (sampleWindow (Some send) true)
      (lit "quero orçamento") (lit "João Silva") (lit "Diretor")
      (lit "joao@clinica.com.br") (lit "Custos") (lit "Sem dúvida")
      (pageIn IDLE emptyLead) in
  (run alwaysRejects).1 = Normal ()
  ∧ flowState (this (run alwaysRejects).2) = DUVIDA
  ∧ leadData (this (run alwaysRejects).2) = set_mensagem (lit "Sem dúvida") sampleLead
  ∧ (run deliversThird).1 = Normal ()
  ∧ flowState (this (run deliversThird).2) = IDLE
  ∧ leadData (this (run deliversThird).2) = set_mensagem (lit "Sem dúvida") sampleLead
  ∧ set_mensagem (lit "Sem dúvida") sampleLead ≠ emptyLead.
Proof.
  intros run.
  split; [vm_compute; reflexivity |]. split; [vm_compute; reflexivity |].
  split; [vm_compute; reflexivity |]. split; [vm_compute; reflexivity |].
  split; [vm_compute; reflexivity |]. split; [vm_compute; reflexivity |].
  vm_compute. discriminate.
Qed.





(** ** Further properties of the chatbot *)

Section Conversation.

Variable toLowerCase toUpperCase : jsstring → jsstring.
Variable window : Window.

Local Abbreviation handleFlow := (Luna.handleFlow toUpperCase window).
Local Abbreviation checkIntents := (Luna.checkIntents toLowerCase window).
Local Abbreviation sendMessage := (Luna.sendMessage toLowerCase toUpperCase window).
Local Abbreviation respond := (Luna.respond toLowerCase toUpperCase window).
Local Abbreviation generateSecureProtocol := (Luna.generateSecureProtocol toUpperCase window).
Local Abbreviation sendEmailWithRetry := (Luna.sendEmailWithRetry window).
Local Abbreviation retryLoop := (Luna.retryLoop window).
Local Abbreviation saveToLocalStorage := (Luna.saveToLocalStorage window).

Ltac run_js :=
  unfold mbind, mret, mthrow, JS_bind, JS_ret, JS_throw, try_catch, outOfFuel,
    getThis, getWorld, modifyThis, modifyWorld, console_error, sleep in *;
  cbn in *.

(** *** The retry loop under any behaviour of the send operation *)

Lemma send_cases (send : nat → SendOutcome) (n0 m : nat) :
  (∃ k, (k < m)%nat ∧ failsThenSucceeds send n0 k) ∨ failsFor send n0 m.
Proof.
  induction m as [|m IH].
  - right. intros i Hi. lia.
  - destruct IH as [(k & Hk & H) | Hf].
    + left. exists k. split; [lia | done].
    + destruct (decide (send (n0 + m)%nat = Fulfilled)) as [Hm|Hm].
      * left. exists m. split; [lia |]. by split.
      * right. intros i Hi. destruct (decide (i = m)) as [->|Hne]; [done |].
        apply Hf. lia.
Qed.

Lemma retry_calls_any send data maxRetries p :
  sendContactEmail window = Some send →
  ∃ b n w',
    sendEmailWithRetry data maxRetries p = (Normal b, mkPage (this p) w')
    ∧ (n ≤ default 3%nat maxRetries)%nat
    ∧ timers w' = timers (world p) ++ map backoff (seq 1 (n - 1)).
Proof.
  intros Hs. unfold Luna.sendEmailWithRetry.
  destruct (send_cases send (length (sent (world p))) (default 3%nat maxRetries))
    as [(k & Hk & Hok) | Hf].
  - destruct (retryLoop_succeeds window send data (default 3%nat maxRetries) k Hs
                (default 3%nat maxRetries) 1%nat p)
      as (w' & Hrun & _ & H2 & _); [lia | lia | done |].
    exists true, (S k), w'. cbn [Nat.sub]. rewrite Nat.sub_0_r.
    split; [done |]. split; [lia | done].
  - destruct (retryLoop_exhausts window send data (default 3%nat maxRetries)
                (default 3%nat maxRetries) Hs
                (default 3%nat maxRetries) 1%nat p)
      as (w' & Hrun & _ & H2 & _); [lia | lia | done |].
    exists false, (default 3%nat maxRetries), w'. done.
Qed.

(** X1. Whatever the send operation does, [sendEmailWithRetry] calls it
    at most the maximum number of times, always with the same data, makes
    no call after a fulfilled one, waits [2^(i-1)] seconds after each call
    but the last, and returns true exactly when its last call was
    fulfilled; it returns false only after as many failed calls as the
    maximum.  The chatbot and the storage are left alone. *)
Theorem retry_stops_at_first_success send data maxRetries p :
  sendContactEmail window = Some send →
  let max := default 3%nat maxRetries in
  let first := length (sent (world p)) in
  ∃ b n w',
    sendEmailWithRetry data maxRetries p = (Normal b, mkPage (this p) w')
    ∧ (n ≤ max)%nat
    ∧ sent w' = sent (world p) ++ replicate n data
    ∧ timers w' = timers (world p)
                  ++ map (λ i, 2 ^ N.of_nat (i - 1) * 1000) (seq 1 (n - 1))
    ∧ failsFor send first (n - 1)
    ∧ (if b then (0 < n)%nat ∧ send (first + (n - 1))%nat = Fulfilled
       else n = max ∧ failsFor send first max)
    ∧ localStorage w' = localStorage (world p).
Proof.
  intros Hs max first. unfold Luna.sendEmailWithRetry. fold max.
  destruct (send_cases send first max) as [(k & Hk & Hok) | Hf].
  - destruct (retryLoop_succeeds window send data max k Hs max 1%nat p)
      as (w' & Hrun & H1 & H2 & _ & H4 & _); [lia | lia | done |].
    exists true, (S k), w'. cbn [Nat.sub]. rewrite Nat.sub_0_r.
    destruct Hok as [Hfail Hlast]. repeat split; try done; lia.
  - destruct (retryLoop_exhausts window send data max max Hs max 1%nat p)
      as (w' & Hrun & H1 & H2 & _ & H4 & _); [lia | lia | done |].
    exists false, max, w'. repeat split; try done.
    intros i Hi. apply Hf. lia.
Qed.

Lemma retryLoop_absent data maxRetries r :
  sendContactEmail window = None →
  ∀ fuel attempt p,
    (r ≤ fuel)%nat →
    (attempt + r = S maxRetries)%nat →
    ∃ w', retryLoop fuel data maxRetries attempt p = (Normal false, mkPage (this p) w')
          ∧ retried data 0 (map backoff (seq attempt (r - 1))) (world p) w'
          ∧ console w' = console (world p)
                         ++ map (λ i, AttemptFailed i TypeError) (seq attempt r).
Proof.
  intros Hs. induction r as [|r IH]; intros fuel attempt p Hfuel Hmax.
  - assert (Hgt : (attempt <=? maxRetries)%nat = false) by (apply Nat.leb_gt; lia).
    destruct fuel; simpl; rewrite Hgt; run_js;
      (exists (world p); split; [by destruct p |]);
      (split; [apply retried_refl | by rewrite app_nil_r]).
  - destruct fuel as [|fuel]; [lia |].
    assert (Hle : (attempt <=? maxRetries)%nat = true) by (apply Nat.leb_le; lia).
    destruct r as [|r].
    + assert (Hlt : (attempt <? maxRetries)%nat = false) by (apply Nat.ltb_ge; lia).
      simpl. rewrite Hle. unfold Luna.await_sendContactEmail. rewrite Hs.
      run_js. rewrite Hlt. cbn.
      eexists. split; [reflexivity |]. split; [| done].
      unfold retried. cbn. by rewrite !app_nil_r.
    + assert (Hlt : (attempt <? maxRetries)%nat = true) by (apply Nat.ltb_lt; lia).
      assert (Hstep : retryLoop (S fuel) data maxRetries attempt p =
                retryLoop fuel data maxRetries (S attempt)
                  (mkPage (this p)
                     (log_timer (backoff attempt)
                        (log_console (AttemptFailed attempt TypeError) (world p))))).
      { simpl. rewrite Hle. unfold Luna.await_sendContactEmail. rewrite Hs.
        run_js. rewrite Hlt. reflexivity. }
      rewrite Hstep.
      edestruct (IH fuel (S attempt)) as (w' & -> & Hr & Hc); [lia | cbn; lia |].
      cbn. eexists. split; [reflexivity |].
      destruct Hr as (H1 & H2 & H3 & H4 & H5 & H6 & H7). cbn in *.
      split.
      * unfold retried. rewrite H1, H2, H3, H4, H5, H6, H7.
        rewrite Nat.sub_0_r, <- !app_assoc. done.
      * rewrite Hc, <- app_assoc. done.
Qed.

(** X2. When [window.sendContactEmail] is missing, [sendEmailWithRetry]
    still goes through all its attempts: each one fails with a TypeError
    that is caught and logged, the backoff waits are all made, no call is
    logged, and the result is false. *)
Theorem retry_without_send_function data maxRetries p :
  sendContactEmail window = None →
  let max := default 3%nat maxRetries in
  ∃ w',
    sendEmailWithRetry data maxRetries p = (Normal false, mkPage (this p) w')
    ∧ sent w' = sent (world p)
    ∧ timers w' = timers (world p)
                  ++ map (λ i, 2 ^ N.of_nat (i - 1) * 1000) (seq 1 (max - 1))
    ∧ console w' = console (world p)
                   ++ map (λ i, AttemptFailed i TypeError) (seq 1 max).
Proof.
  intros Hs max. unfold Luna.sendEmailWithRetry. fold max.
  destruct (retryLoop_absent data max max Hs max 1%nat p)
    as (w' & Hrun & (H1 & H2 & _) & Hc); [lia | lia |].
  exists w'. cbn in H1. rewrite app_nil_r in H1. done.
Qed.

Lemma sumN_powers_le (n m : nat) :
  (n ≤ m)%nat →
  sumN (map backoff (seq 1 (n - 1))) ≤ 1000 * (2 ^ N.of_nat (m - 1) - 1).
Proof.
  intros Hnm. rewrite sumN_backoff, sumN_powers.
  assert (2 ^ N.of_nat (n - 1) ≤ 2 ^ N.of_nat (m - 1)).
  { apply N.pow_le_mono_r; lia. }
  lia.
Qed.

(** X3. Whatever the send operation does, and also when it is missing, the
    waits [sendEmailWithRetry] adds sum up to at most [2^(max-1) - 1]
    seconds: 3 seconds for the 3 attempts of the chatbot. *)
Theorem retry_wait_bound data maxRetries p :
  let max := default 3%nat maxRetries in
  ∃ b w' waits,
    sendEmailWithRetry data maxRetries p = (Normal b, mkPage (this p) w')
    ∧ timers w' = timers (world p) ++ waits
    ∧ sumN waits ≤ 1000 * (2 ^ N.of_nat (max - 1) - 1).
Proof.
  intros max. destruct (sendContactEmail window) as [send|] eqn:Hs.
  - destruct (retry_calls_any send data maxRetries p Hs)
      as (b & n & w' & Hrun & Hn & Ht).
    exists b, w', (map backoff (seq 1 (n - 1))).
    split; [done |]. split; [done |]. by apply sumN_powers_le.
  - destruct (retryLoop_absent data max max Hs max 1%nat p)
      as (w' & Hrun & (_ & H2 & _) & _); [lia | lia |].
    exists false, w', (map backoff (seq 1 (max - 1))).
    split; [done |]. split; [done |]. by apply sumN_powers_le.
Qed.

(** *** The terminal step under any behaviour of the collaborators *)

Lemma retry_any send data maxRetries p :
  sendContactEmail window = Some send →
  ∃ b n w',
    sendEmailWithRetry data maxRetries p = (Normal b, mkPage (this p) w')
    ∧ (n ≤ default 3%nat maxRetries)%nat
    ∧ retried data n (map backoff (seq 1 (n - 1))) (world p) w'.
Proof.
  intros Hs. unfold Luna.sendEmailWithRetry.
  destruct (send_cases send (length (sent (world p))) (default 3%nat maxRetries))
    as [(k & Hk & Hok) | Hf].
  - destruct (retryLoop_succeeds window send data (default 3%nat maxRetries) k Hs
                (default 3%nat maxRetries) 1%nat p)
      as (w' & Hrun & Hr); [lia | lia | done |].
    exists true, (S k), w'. cbn [Nat.sub]. rewrite Nat.sub_0_r.
    split; [done |]. split; [lia | done].
  - destruct (retryLoop_exhausts window send data (default 3%nat maxRetries)
                (default 3%nat maxRetries) Hs
                (default 3%nat maxRetries) 1%nat p)
      as (w' & Hrun & Hr); [lia | lia | done |].
    exists false, (default 3%nat maxRetries), w'. done.
Qed.

Lemma sent_drawn_saved (d : LeadData) (w : World) :
  sent (drawn window (saved window d w)) = sent w.
Proof. unfold saved. by destruct (setItem_ok window (writes w)). Qed.

Lemma fallback_any (error : JSError) (q : Page) :
  ∃ R w',
    (console_error (ChatbotEmailError error);;
     saveToLocalStorage;;
     protocol ← generateSecureProtocol;
     b ← getThis;
     let d := leadData b in
     let waText :=
       waTextFallback (interp (nome d)) (interp (cargo d))
                      (interp (desafio d)) protocol in
     encoded ← Luna.encodeURIComponent_ waText;
     let waLink := waLinkOf encoded in
     mret (fallbackReply waLink)) q = (R, mkPage (this q) w')
    ∧ sent w' = sent (world q)
    ∧ (∀ k, k ≠ backupKey → localStorage w' !! k = localStorage (world q) !! k)
    ∧ linkReply R.
Proof.
  rewrite fallback_run. eexists _, _. split; [reflexivity |].
  split; [by rewrite sent_drawn_saved |].
  split.
  { intros k Hk. unfold saved. destruct (setItem_ok window _); cbn; [| done].
    by rewrite lookup_insert_ne. }
  destruct (encodeURIComponent _) as [enc|] eqn:Henc; [left | by right].
  eexists _, enc, (lit "GLX-"). split; [exact Henc | by right].
Qed.

Lemma terminal_run input p :
  flowState (this p) = DUVIDA →
  let d := set_mensagem (trim input) (leadData (this p)) in
  ∃ R s' n w',
    handleFlow input p =
      (R, mkPage (mkLuna s' d (chatInput (this p)) (chatMessages (this p))) w')
    ∧ (s' = DUVIDA ∨ s' = IDLE)
    ∧ (n ≤ 3)%nat
    ∧ sent w' = sent (world p) ++ replicate n d
    ∧ (∀ k, k ≠ backupKey → localStorage w' !! k = localStorage (world p) !! k)
    ∧ linkReply R.
Proof.
  intros Hst d.
  unfold Luna.handleFlow.
  erewrite bind_Normal by reflexivity. rewrite Hst.
  erewrite bind_Normal by reflexivity.
  set (b1 := set_leadData d (this p)).
  destruct (sendContactEmail window) as [send|] eqn:Hs.
  - destruct (retry_any send d (Some 3%nat) (mkPage b1 (drawn window (world p))) Hs)
      as (b & n & w1 & Hrun & Hn & Hr).
    destruct Hr as (R1 & _ & _ & R4 & _). cbn in R1, R4, Hn.
    destruct b.
    + (* delivered *)
      set (token := protocolAt toUpperCase window (protocols (world p)) (clock (world p))).
      set (w2 := if trackEvent window
                 then log_tracked (lead_submitted token (desafio d)) w1 else w1).
      assert (Hw2 : sent w2 = sent w1) by (unfold w2; by destruct (trackEvent window)).
      assert (Hl2 : localStorage w2 = localStorage (world p)).
      { unfold w2. by destruct (trackEvent window). }
      set (waText := waTextSuccess (interp (nome d)) (interp (cargo d))
                                   (interp (desafio d)) token).
      assert (Hbody : ∀ (rest : jsstring → JS jsstring),
        (protocol ← generateSecureProtocol;
         (b ← getThis;
          success ← sendEmailWithRetry (leadData b) (Some 3%nat);
          if negb success
          then mthrow (Error (lit "EmailJS failed after retries"))
          else mret ());;
         modifyThis (set_flowState IDLE);;
         (if trackEvent window then
            b ← getThis;
            Luna.window_trackEvent (lead_submitted protocol (desafio (leadData b)))
          else mret ());;
         rest protocol) (mkPage b1 (world p))
        = rest token (mkPage (set_flowState IDLE b1) w2)).
      { intros rest. unfold w2. clear w2 Hw2 Hl2.
        destruct (trackEvent window);
          (erewrite bind_Normal by apply generateSecureProtocol_run;
           erewrite bind_Normal;
           [| erewrite bind_Normal by reflexivity;
              erewrite bind_Normal by apply Hrun; reflexivity ];
           erewrite bind_Normal by reflexivity;
           erewrite bind_Normal by reflexivity;
           reflexivity). }
      destruct (encodeURIComponent waText) as [enc|] eqn:Henc.
      * exists (Normal (successReply token (waLinkOf enc))), IDLE, n, w2.
        split.
        { erewrite try_Normal; [reflexivity |].
          rewrite Hbody.
          erewrite bind_Normal by reflexivity.
          cbn [this leadData set_flowState set_leadData b1].
          fold waText. unfold Luna.encodeURIComponent_. rewrite Henc.
          reflexivity. }
        split; [by right |]. split; [done |]. split; [by rewrite Hw2 |].
        split; [by rewrite Hl2 |].
        left. eexists _, enc, token. split; [exact Henc | by left].
      * destruct (fallback_any URIError (mkPage (set_flowState IDLE b1) w2))
          as (R & w' & Hfb & Hsent & Hls & HR).
        exists R, IDLE, n, w'. split.
        { erewrite try_Throw.
          2:{ rewrite Hbody.
              erewrite bind_Normal by reflexivity.
              cbn [this leadData set_flowState set_leadData b1].
              fold waText. unfold Luna.encodeURIComponent_. rewrite Henc.
              reflexivity. }
          apply Hfb. }
        split; [by right |]. split; [done |].
        split; [by rewrite Hsent; cbn; rewrite Hw2 |].
        split; [| done]. intros k Hk. rewrite (Hls k Hk). cbn. by rewrite Hl2.
    + (* every attempt failed *)
      destruct (fallback_any (Error (lit "EmailJS failed after retries")) (mkPage b1 w1))
        as (R & w' & Hfb & Hsent & Hls & HR).
      exists R, DUVIDA, n, w'. split.
      { erewrite try_Throw.
        2:{ erewrite bind_Normal by apply generateSecureProtocol_run.
            erewrite bind_Throw; [reflexivity |].
            erewrite bind_Normal by reflexivity.
            erewrite bind_Normal by apply Hrun. reflexivity. }
        eapply eq_trans; [apply Hfb |].
      unfold b1, set_leadData. cbn. by rewrite Hst. }
      split; [by left |]. split; [done |].
      split; [by rewrite Hsent |].
      split; [| done]. intros k Hk. rewrite (Hls k Hk). cbn. by rewrite R4.
  - (* no send operation *)
    destruct (fallback_any (Error (lit "Configuration Error"))
                (mkPage b1 (log_console FunctionNotFound (drawn window (world p)))))
      as (R & w' & Hfb & Hsent & Hls & HR).
    exists R, DUVIDA, 0%nat, w'. split.
    { erewrite try_Throw.
      2:{ erewrite bind_Normal by apply generateSecureProtocol_run.
          erewrite bind_Throw; [reflexivity |].
          erewrite bind_Normal by reflexivity. reflexivity. }
      eapply eq_trans; [apply Hfb |].
      unfold b1, set_leadData. cbn. by rewrite Hst. }
    split; [by left |]. split; [lia |].
    split; [by rewrite Hsent; cbn; rewrite app_nil_r |].
    split; [| done]. intros k Hk. by rewrite (Hls k Hk).
Qed.

(** *** One submission *)

Lemma complete_final (d : LeadData) (v : jsstring) :
  collected DUVIDA d → complete (set_mensagem v d).
Proof.
  intros (Hn & Hc & He & Hd). unfold complete. cbn.
  repeat split; eauto.
Qed.

Lemma dispatch_step (message : jsstring) (q : Page) :
  ∃ R q',
    dispatch toLowerCase toUpperCase window message q = (R, q')
    ∧ chatInput (this q') = chatInput (this q)
    ∧ chatMessages (this q') = chatMessages (this q)
    ∧ ((∃ r, R = Normal r) ∨ R = Throw URIError)
    ∧ (flowState (this q') = flowState (this q)
       ∨ flowState (this q') = nextState (flowState (this q)))
    ∧ (∀ k, k ≠ backupKey →
         localStorage (world q') !! k = localStorage (world q) !! k)
    ∧ ∃ l, sent (world q') = sent (world q) ++ l
           ∧ (collected (flowState (this q)) (leadData (this q)) →
              collected (flowState (this q')) (leadData (this q'))
              ∧ Forall complete l).
Proof.
  unfold dispatch. destruct (flowState (this q)) eqn:Hst; cbn [Luna.isIDLE negb].
  - (* IDLE *)
    unfold Luna.checkIntents.
    destruct (existsb _ triggers).
    + unfold Luna.startLeadFlow, Luna.new_Date_toISOString, Luna.window_trackEvent.
      run_js.
      destruct (trackEvent window); cbn;
        (eexists _, _; split; [reflexivity |]; cbn;
         split; [done |]; split; [done |]; split; [eauto |];
         split; [by right |]; split; [done |];
         exists []; rewrite app_nil_r; done).
    + destruct (_ || _); run_js;
        (eexists _, _; split; [reflexivity |];
         split; [done |]; split; [done |]; split; [eauto |];
         split; [by left |]; split; [done |];
         exists []; rewrite app_nil_r, ?Hst; done).
  - (* NAME *)
    destruct (decide (3 ≤ length (trim message))%nat) as [Hlen|Hlen].
    + rewrite handleFlow_NAME by done.
      eexists _, _; split; [reflexivity |]; cbn.
      split; [done |]. split; [done |]. split; [eauto |].
      split; [by right |]. split; [done |].
      exists []. rewrite app_nil_r. split; [done |].
      intros _. split; [| done]. by exists (trim message).
    + unfold Luna.handleFlow. erewrite bind_Normal by reflexivity. rewrite Hst.
      assert (Hlt : (length (trim message) <? 3)%nat = true) by (apply Nat.ltb_lt; lia).
      rewrite Hlt.
      eexists _, _; split; [reflexivity |].
      split; [done |]. split; [done |]. split; [eauto |].
      split; [by left |]. split; [done |].
      exists []. rewrite app_nil_r, ?Hst. done.
  - (* ROLE *)
    rewrite handleFlow_ROLE by done.
    eexists _, _; split; [reflexivity |]; cbn.
    split; [done |]. split; [done |]. split; [eauto |].
    split; [by right |]. split; [done |].
    exists []. rewrite app_nil_r. split; [done |].
    intros Hn. split; [| done]. split; [done | eauto].
  - (* EMAIL *)
    destruct (test emailRegex (trim message)) eqn:Ht.
    + rewrite handleFlow_EMAIL by done.
      eexists _, _; split; [reflexivity |]; cbn.
      split; [done |]. split; [done |]. split; [eauto |].
      split; [by right |]. split; [done |].
      exists []. rewrite app_nil_r. split; [done |].
      intros [Hn Hc]. split; [| done]. split; [done |]. split; [done |].
      exists (trim message). split; [done |]. by apply test_Matches.
    + unfold Luna.handleFlow. erewrite bind_Normal by reflexivity. rewrite Hst, Ht.
      eexists _, _; split; [reflexivity |].
      split; [done |]. split; [done |]. split; [eauto |].
      split; [by left |]. split; [done |].
      exists []. rewrite app_nil_r, ?Hst. done.
  - (* DESAFIO *)
    rewrite handleFlow_DESAFIO by done.
    eexists _, _; split; [reflexivity |]; cbn.
    split; [done |]. split; [done |]. split; [eauto |].
    split; [by right |]. split; [done |].
    exists []. rewrite app_nil_r. split; [done |].
    intros (Hn & Hc & He). split; [| done]. repeat split; eauto.
  - (* DUVIDA *)
    destruct (terminal_run message q Hst)
      as (R & s' & n & w' & Hrun & Hs' & Hn & Hsent & Hls & HR).
    rewrite Hrun.
    eexists _, _; split; [reflexivity |]; cbn.
    split; [done |]. split; [done |]. split.
    { destruct HR as [(text & enc & token & _ & [-> | ->]) | ->]; eauto. }
    split; [cbn; tauto |]. split; [done |].
    eexists. split; [exact Hsent |].
    intros Hc. split.
    + destruct Hs' as [-> | ->]; [| done].
      destruct Hc as (Hn' & Hc' & He' & Hd'). repeat split; eauto.
    + apply Forall_replicate. by apply complete_final.
Qed.

Lemma removeTyping_last (l : list ChatNode) :
  TypingIndicator ∉ l → Luna.removeTyping (l ++ [TypingIndicator]) = l.
Proof.
  induction l as [|x l IH]; [done |].
  intros Hnot. apply not_elem_of_cons in Hnot as [Hx Hl].
  destruct x; [| done]. cbn. by rewrite IH.
Qed.

(** [sendMessage] on an input that is not blank, up to the reply. *)
Lemma sendMessage_run (p : Page) :
  trim (chatInput (this p)) ≠ [] →
  sendMessage p =
    respond (trim (chatInput (this p)))
      (mkPage (mkLuna (flowState (this p)) (leadData (this p)) []
                 ((chatMessages (this p)
                   ++ [Message User (trim (chatInput (this p)))])
                  ++ [TypingIndicator]))
              (log_timer 1000 (world p))).
Proof.
  intros Hne. unfold Luna.sendMessage.
  erewrite bind_Normal by reflexivity.
  destruct (trim (chatInput (this p))) as [|c m] eqn:Hm; [done |].
  unfold Luna.addMessage, Luna.showTyping.
  erewrite bind_Normal by reflexivity.
  erewrite bind_Normal by reflexivity.
  erewrite bind_Normal by reflexivity.
  erewrite bind_Normal by reflexivity.
  reflexivity.
Qed.

Lemma respond_dispatch (message : jsstring) (p : Page) :
  respond message p =
    match dispatch toLowerCase toUpperCase window message
            (mkPage (set_chatMessages (Luna.removeTyping (chatMessages (this p)))
                                      (this p)) (world p)) with
    | (Normal r, q) =>
      (Normal (),
       mkPage (set_chatMessages (chatMessages (this q) ++ [Message Bot r]) (this q))
              (world q))
    | (Throw e, q) => (Throw e, q)
    | (OutOfFuel, q) => (OutOfFuel, q)
    end.
Proof. rewrite respond_run. reflexivity. Qed.

(** X4. A submission that is not blank clears the input field and adds
    to the chat the trimmed message of the visitor followed by one reply
    of the chatbot, with no typing indicator left; when the reply cannot
    be built (a URIError in the terminal step) only the visitor's message
    is added. *)
Theorem submission_turn (p : Page) :
  let message := trim (chatInput (this p)) in
  message ≠ [] →
  TypingIndicator ∉ chatMessages (this p) →
  ∃ R p',
    sendMessage p = (R, p')
    ∧ chatInput (this p') = []
    ∧ ((∃ reply, R = Normal ()
                 ∧ chatMessages (this p')
                   = chatMessages (this p) ++ [Message User message; Message Bot reply])
       ∨ (R = Throw URIError
          ∧ chatMessages (this p') = chatMessages (this p) ++ [Message User message])).
Proof.
  intros message Hne Hnot.
  rewrite sendMessage_run by done. fold message.
  rewrite respond_dispatch. cbn [this world chatMessages set_chatMessages
                                 flowState leadData chatInput].
  rewrite removeTyping_last.
  2:{ rewrite elem_of_app, list_elem_of_singleton. intros [H | H]; [done | discriminate]. }
  match goal with
  | |- context [dispatch _ _ _ _ ?q] =>
    destruct (dispatch_step message q) as (R & q' & -> & Hin & Hmsg & HR & _)
  end.
  cbn in Hin, Hmsg.
  destruct HR as [[r ->] | ->].
  - eexists _, _. split; [reflexivity |]. cbn. split; [done |].
    left. exists r. split; [done |]. by rewrite Hmsg, <- app_assoc.
  - eexists _, _. split; [reflexivity |]. split; [done |].
    right. done.
Qed.

Lemma submit_step (input : jsstring) (p : Page) :
  let p' := submit toLowerCase toUpperCase window input p in
  (flowState (this p') = flowState (this p)
   ∨ flowState (this p') = nextState (flowState (this p)))
  ∧ (∀ k, k ≠ backupKey →
       localStorage (world p') !! k = localStorage (world p) !! k)
  ∧ ∃ l, sent (world p') = sent (world p) ++ l
         ∧ (collected (flowState (this p)) (leadData (this p)) →
            collected (flowState (this p')) (leadData (this p'))
            ∧ Forall complete l).
Proof.
  unfold submit.
  set (p0 := mkPage (set_chatInput input (this p)) (world p)).
  destruct (decide (trim input = [])) as [Hblank | Hne].
  - assert (Hrun : sendMessage p0 = (Normal (), p0)).
    { unfold Luna.sendMessage. erewrite bind_Normal by reflexivity.
      cbn [this chatInput set_chatInput p0]. by rewrite Hblank. }
    rewrite Hrun. cbn.
    split; [by left |]. split; [done |].
    exists []. by rewrite app_nil_r.
  - rewrite sendMessage_run by done.
    rewrite respond_dispatch.
    cbn [this world chatMessages set_chatMessages flowState leadData chatInput
         set_chatInput p0].
    match goal with
    | |- context [dispatch _ _ _ _ ?q] =>
      destruct (dispatch_step (trim input) q)
        as (R & q' & -> & _ & _ & HR & Hord & Hls & l & Hsent & Hcol)
    end.
    cbn in Hord, Hls, Hsent, Hcol.
    destruct HR as [[r ->] | ->]; cbn;
      (split; [done |]; split; [done |]; by exists l).
Qed.

(** X5. Whatever is submitted, the state of the conversation stays as it
    is or moves to the next one in the order IDLE, NAME, ROLE, EMAIL,
    DESAFIO, DUVIDA, IDLE: no submission skips a question or goes back. *)
Theorem conversation_order (input : jsstring) (p : Page) :
  let p' := submit toLowerCase toUpperCase window input p in
  flowState (this p') = flowState (this p)
  ∨ flowState (this p') = nextState (flowState (this p)).
Proof. apply submit_step. Qed.

Lemma session_step (inputs : list jsstring) :
  ∀ p,
    let p' := session toLowerCase toUpperCase window inputs p in
    (∀ k, k ≠ backupKey →
       localStorage (world p') !! k = localStorage (world p) !! k)
    ∧ ∃ l, sent (world p') = sent (world p) ++ l
           ∧ (collected (flowState (this p)) (leadData (this p)) →
              collected (flowState (this p')) (leadData (this p'))
              ∧ Forall complete l).
Proof.
  unfold session. induction inputs as [|input inputs IH]; intros p; cbn.
  - split; [done |]. exists []. by rewrite app_nil_r.
  - destruct (submit_step input p) as (_ & Hls1 & l1 & Hs1 & Hc1).
    destruct (IH (submit toLowerCase toUpperCase window input p))
      as (Hls2 & l2 & Hs2 & Hc2).
    split.
    + intros k Hk. by rewrite Hls2, Hls1.
    + exists (l1 ++ l2). split; [by rewrite Hs2, Hs1, app_assoc |].
      intros Hc. destruct (Hc1 Hc) as [Hc' Hl1].
      destruct (Hc2 Hc') as [Hc'' Hl2].
      split; [done |]. by apply Forall_app.
Qed.

(** X6. Only complete records are handed to the send operation.  From a
    page in state IDLE (or in any state with the answers that state stands
    for), whatever the visitor submits and in whatever order, every record
    given to [window.sendContactEmail] has all five answers, with a name of
    at least 3 code units and an email of the accepted shape. *)
Theorem only_complete_records_sent (inputs : list jsstring) (p : Page) :
  collected (flowState (this p)) (leadData (this p)) →
  ∃ l, sent (world (session toLowerCase toUpperCase window inputs p))
       = sent (world p) ++ l
       ∧ Forall complete l.
Proof.
  intros Hc. destruct (session_step inputs p) as (_ & l & Hs & Hl).
  exists l. split; [done |]. by apply Hl.
Qed.

(** X7. The chatbot writes to one storage key only: whatever is submitted,
    every key of [localStorage] other than [glx_lead_backup] keeps its
    value, or stays absent. *)
Theorem session_keeps_other_keys (inputs : list jsstring) (p : Page) (k : jsstring) :
  k ≠ backupKey →
  localStorage (world (session toLowerCase toUpperCase window inputs p)) !! k
  = localStorage (world p) !! k.
Proof. intros Hk. by apply session_step. Qed.

(** X8. A message without any trigger keyword changes nothing: in
    [checkIntents] the state, the lead data and every effect stay as they
    were, and the reply is the greeting or the invitation to register. *)
Theorem no_trigger_no_change (message : jsstring) (p : Page) :
  (∀ t u v, In t triggers → toLowerCase message ≠ u ++ t ++ v) →
  ∃ reply,
    checkIntents message p = (Normal reply, p)
    ∧ (reply = greetingReply ∨ reply = optInReply).
Proof.
  intros Hno.
  assert (Hex : existsb (λ t, includes (toLowerCase message) t) triggers = false).
  { apply not_true_is_false. intros (t & Ht & Hin)%existsb_exists.
    apply includes_spec in Hin as (u & v & Hm). by apply (Hno t u v). }
  unfold Luna.checkIntents. rewrite Hex.
  destruct (_ || _); run_js; eexists; (split; [by destruct p |]); tauto.
Qed.

End Conversation.

(** *** The text of the link *)

Lemma hexUpper_safe (d : N) : d < 16 → uriSafe (hexUpper d) = true.
Proof.
  intros Hd. unfold uriSafe, uriUnreserved, isAlnum, hexUpper.
  destruct (d <? 10) eqn:H10.
  - apply N.ltb_lt in H10.
    assert (H : (0x30 <=? 0x30 + d) && (0x30 + d <=? 0x39) = true).
    { apply andb_true_iff. split; apply N.leb_le; lia. }
    rewrite H. by rewrite !orb_true_r.
  - apply N.ltb_ge in H10.
    assert (H : (0x41 <=? 0x41 + (d - 10)) && (0x41 + (d - 10) <=? 0x5A) = true).
    { apply andb_true_iff. split; apply N.leb_le; lia. }
    by rewrite H.
Qed.

Lemma escape_octet_safe (o : N) :
  o < 256 →
  forallb uriSafe [0x25; hexUpper (o / 16); hexUpper (o mod 16)] = true.
Proof.
  intros Ho. cbn [forallb].
  rewrite !hexUpper_safe; [done | |].
  - apply N.mod_lt. lia.
  - apply N.Div0.div_lt_upper_bound. lia.
Qed.

Lemma percentEscape_safe (cp : N) :
  cp < 0x110000 → forallb uriSafe (percentEscape cp) = true.
Proof.
  intros Hcp. unfold percentEscape, utf8_encode.
  assert (Hmod : ∀ x, 0x80 + x mod 0x40 < 256).
  { intros x. assert (x mod 0x40 < 0x40) by (apply N.mod_lt; lia). lia. }
  destruct (cp <? 0x80) eqn:H1; [apply N.ltb_lt in H1 | apply N.ltb_ge in H1].
  { cbn [map concat]. rewrite app_nil_r. apply escape_octet_safe. lia. }
  destruct (cp <? 0x800) eqn:H2; [apply N.ltb_lt in H2 | apply N.ltb_ge in H2].
  { cbn [map concat]. rewrite app_nil_r, forallb_app.
    rewrite !escape_octet_safe; [done | apply Hmod |].
    assert (cp / 0x40 < 0x20) by (apply N.Div0.div_lt_upper_bound; lia). lia. }
  destruct (cp <? 0x10000) eqn:H3; [apply N.ltb_lt in H3 | apply N.ltb_ge in H3].
  { cbn [map concat]. rewrite app_nil_r, !forallb_app.
    rewrite !escape_octet_safe; [done | apply Hmod | apply Hmod |].
    assert (cp / 0x1000 < 0x10) by (apply N.Div0.div_lt_upper_bound; lia). lia. }
  cbn [map concat]. rewrite app_nil_r, !forallb_app.
  rewrite !escape_octet_safe; [done | apply Hmod | apply Hmod | apply Hmod |].
  assert (cp / 0x40000 < 0x5) by (apply N.Div0.div_lt_upper_bound; lia). lia.
Qed.

Lemma encodeURIComponent_safe (s : jsstring) :
  forallb (λ c, c <? 0x10000) s = true →
  ∀ enc, encodeURIComponent s = Some enc → forallb uriSafe enc = true.
Proof.
  assert (Hlen : ∀ n (s : jsstring), (length s < n)%nat →
            forallb (λ c, c <? 0x10000) s = true →
            ∀ enc, encodeURIComponent s = Some enc → forallb uriSafe enc = true).
  { clear s. induction n as [|n IH]; intros s Hn H16 enc Henc; [lia |].
    destruct s as [|c s]; simpl in *; [by injection Henc as <- |].
    apply andb_true_iff in H16 as [Hc H16]. apply N.ltb_lt in Hc.
    destruct (uriUnreserved c) eqn:Hu.
    - apply fmap_Some in Henc as (e' & He' & ->). simpl.
      unfold uriSafe at 1. rewrite Hu. simpl. apply (IH s); [lia | done | done].
    - destruct (isLeadSurrogate c) eqn:Hlead.
      + destruct s as [|d s]; [done |].
        destruct (isTrailSurrogate d) eqn:Htrail; [| done].
        apply fmap_Some in Henc as (e' & He' & ->).
        simpl in H16. apply andb_true_iff in H16 as [Hd H16].
        rewrite forallb_app. apply andb_true_iff. split.
        * apply percentEscape_safe.
          unfold isLeadSurrogate, isTrailSurrogate in *.
          apply andb_true_iff in Hlead as [Hl1 Hl2%N.leb_le].
          apply andb_true_iff in Htrail as [Ht1 Ht2%N.leb_le]. lia.
        * apply (IH s); [simpl in Hn; lia | done | done].
      + destruct (isTrailSurrogate c); [done |].
        apply fmap_Some in Henc as (e' & He' & ->).
        rewrite forallb_app. apply andb_true_iff. split.
        * apply percentEscape_safe. lia.
        * apply (IH s); [lia | done | done]. }
  intros H16. apply (Hlen (S (length s))); [lia | done].
Qed.

(** X9. The WhatsApp link is a well-formed URL whatever the answers were:
    after the fixed address and [?text=], the URI-encoded text consists of
    unreserved characters and percent escapes only (no space, line break,
    [&], [#] or character outside ASCII), so the whole message stays in
    the one query parameter. *)
Theorem link_text_is_uri_safe (text enc : jsstring) :
  forallb (λ c, c <? 0x10000) text = true →
  encodeURIComponent text = Some enc →
  waLinkOf enc = lit "https://wa.me/5511944223257?text=" ++ enc
  ∧ forallb uriSafe enc = true
  ∧ forallb (λ c, negb (isWhiteSpace c) && negb (c =? 0x26) && negb (c =? 0x23)
                  && (c <? 0x80)) enc = true.
Proof.
  intros H16 Henc. split; [done |].
  pose proof (encodeURIComponent_safe text H16 enc Henc) as Hsafe.
  split; [done |].
  revert Hsafe. clear. induction enc as [|c enc IH]; [done |].
  cbn [forallb]. intros [Hc Henc]%andb_true_iff.
  rewrite (IH Henc), andb_true_r. clear IH Henc.
  unfold uriSafe, uriUnreserved, isAlnum in Hc. unfold isWhiteSpace.
  rewrite !orb_true_iff, !andb_true_iff, !N.leb_le, !N.eqb_eq in Hc.
  assert (Hr : c = 0x25 ∨ c = 0x21 ∨ (0x27 ≤ c ≤ 0x2A) ∨ (0x2D ≤ c ≤ 0x2E)
               ∨ (0x30 ≤ c ≤ 0x39) ∨ (0x41 ≤ c ≤ 0x5A) ∨ c = 0x5F
               ∨ (0x61 ≤ c ≤ 0x7A) ∨ c = 0x7E) by lia.
  clear Hc.
  repeat match goal with
         | |- context [?a <=? ?b] =>
           destruct (N.leb_spec a b); try lia
         | |- context [?a =? ?b] =>
           destruct (N.eqb_spec a b); try lia
         | |- context [?a <? ?b] =>
           destruct (N.ltb_spec a b); try lia
         end; cbn; try done; lia.
Qed.
